(** * Simple Tic-Tac-Toe with Python: the board engine of [tictactoe.py]

    A shallow embedding of [task/tictactoe.py] and the properties of
    its board engine.

    Conventions of the embedding.
    - A Python [str] is a list of characters ([str := list ascii]); a
      character is a code point below 256, so the strings covered are
      those of the Latin-1 range.  A one-character string is a
      one-element list.
    - A Python [int] is a [Z]; the indices produced by [enumerate] are
      [nat]; a [set[int]] of cell indices is a [gset nat].
    - A function that can raise returns a [result]: [Ok v] or
      [Raise e], with [e] the class of the exception.
    - The lines read by [input()] are given to the driver already
      split into tokens.
    - The interpreter's limit on the number of digits that [int]
      converts is a parameter of the part that depends on it. *)

From Stdlib Require Import ZArith Ascii String.
From stdpp Require Import base decidable numbers list gmap strings.

#[local] Set Warnings "-clear-no-such-hyp".

Local Open Scope Z_scope.

(** ** Python values *)

Abbreviation str := (list ascii).

(** String literals of the source. *)
Definition lit (s : string) : str := list_ascii_of_string s.

(** [s * n] on a string. *)
Definition str_repeat (s : str) (n : nat) : str := mjoin (replicate n s).

(** Exception classes: the three of the program, and the built-in ones
    that its expressions can raise. *)
Inductive exn : Set :=
| NonNumericError
| CoordinateError
| OccupiedCellError
| ValueError
| IndexError
| EOFError.

Inductive result (A : Type) : Type :=
| Ok (a : A)
| Raise (e : exn).
Arguments Ok {A} a.
Arguments Raise {A} e.

Global Instance result_ret : MRet result := λ A a, Ok a.

Global Instance result_bind : MBind result := λ A B k r,
  match r with
  | Ok a => k a
  | Raise e => Raise e
  end.

Global Instance exn_eq_dec : EqDecision exn.
Proof. solve_decision. Defined.

(** [enumerate(l, start)]. *)
Fixpoint enumerate_from {A} (start : nat) (l : list A) : list (nat * A) :=
  match l with
  | [] => []
  | x :: l' => (start, x) :: enumerate_from (S start) l'
  end.

Definition enumerate {A} (l : list A) : list (nat * A) := enumerate_from 0 l.

(** ** [class GameStatus(Enum)] *)

Inductive GameStatus : Set :=
| NOT_FINISHED
| X_WIN
| O_WIN
| DRAW
| IMPOSSIBLE.

Global Instance GameStatus_eq_dec : EqDecision GameStatus.
Proof. solve_decision. Defined.

Definition GameStatus_value (g : GameStatus) : Z :=
  match g with
  | NOT_FINISHED => 0
  | X_WIN => 1
  | O_WIN => 2
  | DRAW => 3
  | IMPOSSIBLE => 4
  end.

(** [GameStatus.__str__]; the wildcard case of the source cannot be
    reached from a member of the enumeration. *)
Definition GameStatus_str (g : GameStatus) : str :=
  match g with
  | NOT_FINISHED => lit "Game not finished"
  | X_WIN => lit "X wins"
  | O_WIN => lit "O wins"
  | DRAW => lit "Draw"
  | IMPOSSIBLE => lit "Impossible"
  end.

(** ** Outcome evaluation *)

(** [set([i for i, n in enumerate(state) if n == char])]: [n] is a
    one-character string, compared with the string [char]. *)
Definition candidate_indices (state : str) (char : str) : list nat :=
  (filter (λ p : nat * ascii, [p.2] = char) (enumerate state)).*1.

Definition get_candidate (state : str) (char : str) : gset nat :=
  list_to_set (candidate_indices state char).

Definition get_blank_count (state : str) : nat :=
  size (get_candidate state (lit " ")).

Definition winners : list (gset nat) :=
  [ {[0; 1; 2]};
    {[3; 4; 5]};
    {[6; 7; 8]};
    {[0; 3; 6]};
    {[1; 4; 7]};
    {[2; 5; 8]};
    {[0; 4; 8]};
    {[2; 4; 6]} ]%nat.

(** [any(winner <= candidate for winner in winners)]. *)
Definition check_win (candidate : gset nat) : bool :=
  existsb (λ winner, bool_decide (winner ⊆ candidate)) winners.

Definition evaluate_game_status (state : str) : GameStatus :=
  let blank_count := get_blank_count state in
  let x_candidate := get_candidate state (lit "X") in
  let o_candidate := get_candidate state (lit "O") in
  if bool_decide
       (Z.abs (Z.of_nat (size x_candidate) - Z.of_nat (size o_candidate)) > 1)
  then IMPOSSIBLE
  else
    let x_win := check_win x_candidate in
    let o_win := check_win o_candidate in
    if x_win && o_win then IMPOSSIBLE
    else if x_win then X_WIN
    else if o_win then O_WIN
    else if bool_decide (Z.of_nat blank_count > 0) then NOT_FINISHED
    else DRAW.

(** ** Rendering *)

(** [[state[i:i + 3] for i in range(0, len(state), 3)]]: consecutive
    slices of three characters, the last one possibly shorter. *)
Fixpoint row_slices (state : str) : list str :=
  match state with
  | [] => []
  | [a] => [[a]]
  | [a; b] => [[a; b]]
  | a :: b :: c :: rest => [a; b; c] :: row_slices rest
  end.

(** [sep.join(s)] on the characters of the string [s]. *)
Fixpoint str_join (sep : str) (s : str) : str :=
  match s with
  | [] => []
  | [a] => [a]
  | a :: s' => a :: sep ++ str_join sep s'
  end.

(** The lines that [display_game_state] prints. *)
Definition display_game_state (state : str) : list str :=
  let separator := lit "---------" in
  let chunks := (str_join (lit " ")) <$> row_slices state in
  [separator]
  ++ ((λ chunk, lit "| " ++ chunk ++ lit " |") <$> chunks)
  ++ [separator].

(** ** Moves *)

(** A slice bound, as Python clamps it: a negative bound counts from
    the end, and the result is kept within [0, len]. *)
Definition slice_bound (len : nat) (i : Z) : nat :=
  let i' := if bool_decide (i < 0) then i + Z.of_nat len else i in
  Z.to_nat (Z.min (Z.of_nat len) (Z.max 0 i')).

(** [s[:i]] and [s[i:]]. *)
Definition slice_to (s : str) (i : Z) : str := take (slice_bound (length s) i) s.
Definition slice_from (s : str) (i : Z) : str := drop (slice_bound (length s) i) s.

(** [s[i]]: a one-character string, or [IndexError]. *)
Definition getitem (s : str) (i : Z) : result str :=
  let j := if bool_decide (i < 0) then i + Z.of_nat (length s) else i in
  if bool_decide (0 ≤ j < Z.of_nat (length s))
  then match s !! Z.to_nat j with
       | Some c => Ok [c]
       | None => Raise IndexError
       end
  else Raise IndexError.

(** [l[i]] on the list of tokens of a line. *)
Definition token (l : list str) (i : nat) : result str :=
  match l !! i with
  | Some t => Ok t
  | None => Raise IndexError
  end.

(** [x in range(start, stop)] for an integer [x]. *)
Definition in_range (start stop x : Z) : bool :=
  bool_decide (start ≤ x < stop).

Definition flatten_coordinates (coordinates : Z * Z) : Z :=
  let zeroed := (coordinates.1 - 1, coordinates.2 - 1) in
  let '(row, col) := zeroed in
  row * 3 + col.

Definition add_move (state : str) (coords : Z * Z) (char : str) : str :=
  let index := flatten_coordinates coords in
  let updated_state :=
    slice_to state index ++ char ++ slice_from state (index + 1) in
  updated_state.

(** The decimal digits [0]-[9]. *)
Definition is_decimal (c : ascii) : bool :=
  let n := N_of_ascii c in ((48 <=? n) && (n <=? 57))%N.

(** What [str.isdigit] accepts below code point 256: the decimal digits
    and the superscript digits U+00B2, U+00B3 and U+00B9. *)
Definition is_digit (c : ascii) : bool :=
  let n := N_of_ascii c in
  is_decimal c || (n =? 178)%N || (n =? 179)%N || (n =? 185)%N.

(** [s.isdigit()]: at least one character, all of them digits. *)
Definition isdigit (s : str) : bool :=
  match s with
  | [] => false
  | _ => forallb is_digit s
  end.

(** The value of a string of decimal digits, most significant first. *)
Fixpoint decimal_value (acc : Z) (s : str) : option Z :=
  match s with
  | [] => Some acc
  | c :: s' =>
      if is_decimal c
      then decimal_value (10 * acc + Z.of_N (N_of_ascii c - 48)) s'
      else None
  end.

(** The interpreter's limit on the digits of a converted string,
    [sys.get_int_max_str_digits()]: 0 when there is none, as before
    CPython 3.11, and 4300 by default since.  The limit applies to
    strings of more than 640 digits only. *)
Definition default_int_max_str_digits : nat := 4300.
Definition int_str_digits_threshold : nat := 640.

Section interpreter.
Variable int_max_str_digits : nat.

Definition over_digit_limit (digits : nat) : bool :=
  (int_str_digits_threshold <? digits)%nat &&
  (0 <? int_max_str_digits)%nat && (int_max_str_digits <? digits)%nat.

(** [int(s)] as [validate_move] calls it, on a string that has passed
    [isdigit] and so holds no sign, blank or underscore: the conversion
    succeeds when every character is a decimal digit and the digits
    are within the limit, and raises [ValueError] otherwise. *)
Definition int (s : str) : result Z :=
  match s with
  | [] => Raise ValueError
  | _ => match decimal_value 0 s with
         | Some v => if over_digit_limit (length s) then Raise ValueError else Ok v
         | None => Raise ValueError
         end
  end.

Definition validate_move (state : str) (coords : str * str) : result (Z * Z) :=
  let '(row, col) := coords in
  let legal_range := in_range 1 4 in
  let valid_content := [lit "X"; lit "O"] in
  if negb (isdigit row) || negb (isdigit col) then Raise NonNumericError
  else
    r ← int row;
    c ← int col;
    let new_coords := (r, c) in
    if negb (legal_range new_coords.1) || negb (legal_range new_coords.2)
    then Raise CoordinateError
    else
      let index := flatten_coordinates new_coords in
      cell ← getitem state index;
      if bool_decide (cell ∈ valid_content) then Raise OccupiedCellError
      else Ok new_coords.

(** [needle in hay] on strings: [needle] occurs in [hay]. *)
Fixpoint starts_with (needle hay : str) : bool :=
  match needle, hay with
  | [], _ => true
  | _ :: _, [] => false
  | a :: needle', b :: hay' => bool_decide (a = b) && starts_with needle' hay'
  end.

Fixpoint str_in (needle hay : str) : bool :=
  starts_with needle hay ||
  match hay with
  | [] => false
  | _ :: hay' => str_in needle hay'
  end.

Definition get_player (state : str) : str :=
  let play_count :=
    length (filter (λ x : ascii, str_in [x] (lit "XO") = true) state) in
  if bool_decide (Z.of_nat play_count `mod` 2 = 0) then lit "X" else lit "O".

(** ** The driver *)

(** The default [message] of each exception class of the program. *)
Definition message (e : exn) : str :=
  match e with
  | OccupiedCellError => lit "This cell is occupied! Choose another one!"
  | NonNumericError => lit "You should enter numbers!"
  | CoordinateError => lit "Coordinates should be from 1 to 3!"
  | _ => []
  end.

(** The variables of [main] and the lines printed so far. *)
Record driver : Type := Driver {
  game_state : str;
  game_status : GameStatus;
  stdout : list str
}.

Definition print (lines : list str) (d : driver) : driver :=
  Driver (game_state d) (game_status d) (stdout d ++ lines).

(** The body of the [while] loop of [main], run on the tokens [move]
    that [input().split()] gave.  The three exception classes of the
    program are caught; any other one leaves the loop. *)
Definition loop_body (d : driver) (move : list str) : result driver :=
  let player := get_player (game_state d) in
  m0 ← token move 0;
  m1 ← token move 1;
  let move_coords := (m0, m1) in
  match validate_move (game_state d) move_coords with
  | Ok checked_coords =>
      let game_state' := add_move (game_state d) checked_coords player in
      Ok (Driver game_state' (evaluate_game_status game_state')
                 (stdout d ++ display_game_state game_state'))
  | Raise NonNumericError => Ok (print [message NonNumericError] d)
  | Raise CoordinateError => Ok (print [message CoordinateError] d)
  | Raise OccupiedCellError => Ok (print [message OccupiedCellError] d)
  | Raise e => Raise e
  end.

(** The [while] loop on the successive token lists read; reading past
    the last one is the end of the input ([EOFError]). *)
Fixpoint while_loop (inputs : list (list str)) (d : driver) : result driver :=
  if bool_decide (game_status d = NOT_FINISHED)
  then match inputs with
       | [] => Raise EOFError
       | move :: inputs' => d' ← loop_body d move; while_loop inputs' d'
       end
  else Ok d.

Definition main (inputs : list (list str)) : result driver :=
  let blank := str_repeat (lit " ") 9 in
  let d := Driver blank NOT_FINISHED (display_game_state blank) in
  d' ← while_loop inputs d;
  Ok (print [GameStatus_str (game_status d')] d').

(** ** Notions of the specification *)

(** A board: nine cells, each blank, [X] or [O]. *)
Definition cell_ok (c : ascii) : Prop := c = " "%char ∨ c = "X"%char ∨ c = "O"%char.

Definition board (state : str) : Prop :=
  length state = 9%nat ∧ Forall cell_ok state.

(** The number of cells of [state] holding [c]. *)
Definition count_cells (c : ascii) (state : str) : nat :=
  length (filter (λ x, x = c) state).

(** The player of mark [c] holds every cell of some winning triple. *)
Definition holds_line (state : str) (c : ascii) : Prop :=
  ∃ winner, winner ∈ winners ∧ ∀ i, i ∈ winner → state !! i = Some c.

(** A token that [isdigit] accepts, and one written in the decimal
    digits alone. *)
Definition digit_string (s : str) : Prop :=
  s ≠ [] ∧ ∀ ch, ch ∈ s → is_digit ch = true.

Definition decimal_string (s : str) : Prop :=
  s ≠ [] ∧ ∀ ch, ch ∈ s → is_decimal ch = true.

(** Parsing a token as an integer, in the words of the specification:
    an optional sign and then one decimal digit or more. *)
Definition spec_parse_unsigned (s : str) : option Z :=
  match s with
  | [] => None
  | _ => decimal_value 0 s
  end.

Definition spec_parse_integer (s : str) : option Z :=
  match s with
  | "-"%char :: s' => Z.opp <$> spec_parse_unsigned s'
  | "+"%char :: s' => spec_parse_unsigned s'
  | _ => spec_parse_unsigned s
  end.

(** The number of cells of [state] that are not blank. *)
Definition count_nonblank (state : str) : nat :=
  length (filter (λ x, x ≠ " "%char) state).

(** The number of marks on the board, as [get_player] counts them. *)
Definition count_marks (state : str) : nat :=
  length (filter (λ x : ascii, str_in [x] (lit "XO") = true) state).

(** [played k state]: [state] is reached from the blank board by [k]
    validated moves, each made as [main] makes it, with the mark of
    the player to move. *)
Inductive played : nat → str → Prop :=
| played_start : played 0 (str_repeat (lit " ") 9)
| played_move k state coords checked_coords :
    played k state →
    validate_move state coords = Ok checked_coords →
    played (S k) (add_move state checked_coords (get_player state)).

(** Exchanging the two marks on a board, and the two wins in a status. *)
Definition swap_mark (c : ascii) : ascii :=
  if decide (c = "X"%char) then "O"%char
  else if decide (c = "O"%char) then "X"%char
  else c.

Definition swap_marks (state : str) : str := swap_mark <$> state.

Definition mirror (g : GameStatus) : GameStatus :=
  match g with
  | X_WIN => O_WIN
  | O_WIN => X_WIN
  | _ => g
  end.

(** Reading a printed board back: the cells of a row line stand at
    every other place between the two bars, and the rows are the lines
    between the two separators. *)
Fixpoint every_other (s : str) : str :=
  match s with
  | [] => []
  | [a] => [a]
  | a :: _ :: s' => a :: every_other s'
  end.

Definition read_row (line : str) : str :=
  every_other (take (length line - 4) (drop 2 line)).

Definition read_display (lines : list str) : str :=
  mjoin (read_row <$> take (length lines - 2) (drop 1 lines)).

(** A line that the driver answers with one of its three messages:
    it has two tokens, and [validate_move] refuses them on [state]
    with an error of the program. *)
Definition refused (state : str) (move : list str) (e : exn) : Prop :=
  ∃ row col, move !! 0%nat = Some row ∧ move !! 1%nat = Some col ∧
             validate_move state (row, col) = Raise e ∧
             (e = NonNumericError ∨ e = CoordinateError ∨ e = OccupiedCellError).

(** What the loop of [main] keeps true of its variables. *)
Definition consistent (d : driver) : Prop :=
  let count_x := count_cells "X" (game_state d) in
  let count_o := count_cells "O" (game_state d) in
  board (game_state d) ∧
  game_status d = evaluate_game_status (game_state d) ∧
  (count_x = count_o ∨ count_x = S count_o) ∧
  game_status d ≠ IMPOSSIBLE ∧
  (game_status d = X_WIN → count_x = S count_o) ∧
  (game_status d = O_WIN → count_x = count_o).

(** The lines of a short game: X takes the top row. *)
Definition top_row_game : list (list str) :=
  [[lit "1"; lit "1"]; [lit "2"; lit "2"]; [lit "1"; lit "2"];
   [lit "3"; lit "3"]; [lit "1"; lit "3"]].

(** * Properties *)

Example scenario_1 : evaluate_game_status (lit "         ") = NOT_FINISHED.
Proof. vm_compute. reflexivity. Qed.

Example scenario_2 : evaluate_game_status (lit "XXXOO    ") = X_WIN.
Proof. vm_compute. reflexivity. Qed.

Example full_board_no_line : evaluate_game_status (lit "XOXXOOOXX") = DRAW.
Proof. vm_compute. reflexivity. Qed.

(** On the full board [XOXOXOXOX] X holds both diagonals. *)
Example scenario_3 : evaluate_game_status (lit "XOXOXOXOX") = X_WIN.
Proof. vm_compute. reflexivity. Qed.

Example scenario_4 : evaluate_game_status (lit "XXXOOO   ") = IMPOSSIBLE.
Proof. vm_compute. reflexivity. Qed.

(** ** Candidate sets *)

Section candidates.
Implicit Types (state : str) (c : ascii) (i k : nat).

Lemma enumerate_from_lookup state k i c :
  (i, c) ∈ enumerate_from k state ↔ (k ≤ i)%nat ∧ state !! (i - k)%nat = Some c.
Proof.
  revert k. induction state as [|x state IH]; intros k; simpl.
  - rewrite elem_of_nil. naive_solver lia.
  - rewrite elem_of_cons, IH. split.
    + intros [[= -> ->]|[Hle Hc]].
      * split; [lia|]. by replace (k - k)%nat with 0%nat by lia.
      * split; [lia|]. by replace (i - k)%nat with (S (i - S k)) by lia.
    + intros [Hle Hc]. destruct (decide (i = k)) as [->|Hne].
      * left. replace (k - k)%nat with 0%nat in Hc by lia. naive_solver.
      * right. split; [lia|].
        by replace (i - k)%nat with (S (i - S k)) in Hc by lia.
Qed.

Lemma candidate_indices_elem state c i :
  i ∈ candidate_indices state [c] ↔ state !! i = Some c.
Proof.
  unfold candidate_indices, enumerate. rewrite list_elem_of_fmap. split.
  - intros [[j x] [-> [Heq Hin]%list_elem_of_filter]]. simpl in *.
    apply enumerate_from_lookup in Hin as [_ Hin].
    rewrite Nat.sub_0_r in Hin. congruence.
  - intros Hc. exists (i, c). split; [done|].
    apply list_elem_of_filter. split; [done|].
    apply enumerate_from_lookup. rewrite Nat.sub_0_r. split; [lia|done].
Qed.

Lemma get_candidate_elem state c i :
  i ∈ get_candidate state [c] ↔ state !! i = Some c.
Proof.
  unfold get_candidate. rewrite elem_of_list_to_set.
  apply candidate_indices_elem.
Qed.

Lemma filter_enumerate_lower (P : nat * ascii → Prop) `{∀ p, Decision (P p)}
    state k i :
  i ∈ (filter P (enumerate_from k state)).*1 → (k ≤ i)%nat.
Proof.
  rewrite list_elem_of_fmap.
  intros [[j x] [-> [_ Hin]%list_elem_of_filter]].
  by apply enumerate_from_lookup in Hin as [? _].
Qed.

Lemma filter_enumerate_NoDup (P : nat * ascii → Prop) `{∀ p, Decision (P p)}
    state k :
  NoDup (filter P (enumerate_from k state)).*1.
Proof.
  revert k. induction state as [|x state IH]; intros k; simpl.
  - constructor.
  - rewrite filter_cons. case_decide; [|apply IH].
    rewrite fmap_cons. constructor; [|apply IH].
    intros Hin%filter_enumerate_lower. simpl in Hin. lia.
Qed.

Lemma filter_enumerate_length state c k :
  length (filter (λ p : nat * ascii, [p.2] = [c]) (enumerate_from k state)).*1
  = count_cells c state.
Proof.
  unfold count_cells. revert k.
  induction state as [|x state IH]; intros k; simpl; [done|].
  destruct (decide (x = c)) as [->|Hne].
  - rewrite (filter_cons_True (λ y, y = c)) by done.
    rewrite filter_cons_True by done. simpl. by rewrite IH.
  - rewrite (filter_cons_False (λ y, y = c)) by done.
    rewrite filter_cons_False by (simpl; congruence). apply IH.
Qed.

(** [len(get_candidate(state, c))] is the number of cells holding [c]. *)
Lemma get_candidate_size state c :
  size (get_candidate state [c]) = count_cells c state.
Proof.
  unfold get_candidate, candidate_indices, enumerate.
  rewrite size_list_to_set by apply filter_enumerate_NoDup.
  apply filter_enumerate_length.
Qed.

Lemma count_cells_pos state c :
  (0 < count_cells c state)%nat ↔ c ∈ state.
Proof.
  unfold count_cells. induction state as [|x state IH].
  - rewrite elem_of_nil. simpl. split; [lia|done].
  - rewrite (filter_cons (λ y, y = c)), elem_of_cons. case_decide; simpl.
    + split; [auto|lia].
    + rewrite IH. naive_solver.
Qed.
End candidates.

(** ** Winning lines *)

Lemma check_win_true (candidate : gset nat) :
  check_win candidate = true ↔ ∃ winner, winner ∈ winners ∧ winner ⊆ candidate.
Proof.
  unfold check_win. rewrite existsb_exists. split.
  - intros (w & Hin & Hsub). exists w. split.
    + by apply list_elem_of_In.
    + by apply bool_decide_eq_true in Hsub.
  - intros (w & Hin & Hsub). exists w. split.
    + by apply list_elem_of_In.
    + by apply bool_decide_eq_true.
Qed.

Lemma check_win_holds_line (state : str) (c : ascii) :
  check_win (get_candidate state [c]) = true ↔ holds_line state c.
Proof.
  rewrite check_win_true. unfold holds_line.
  split; intros (w & Hin & Hsub); exists w; (split; [done|]).
  - intros i Hi. apply get_candidate_elem. by apply Hsub.
  - intros i Hi. apply get_candidate_elem. by apply Hsub.
Qed.

(** C3: [check_win] answers true exactly when one of the eight winning
    triples (three rows, three columns, two diagonals) is a subset of
    the set of cell indices that the player holds. *)
Theorem check_win_iff_triple_subset (candidate : gset nat) :
  check_win candidate = true ↔
    ({[0; 1; 2]}%nat : gset nat) ⊆ candidate ∨ ({[3; 4; 5]}%nat : gset nat) ⊆ candidate ∨
    ({[6; 7; 8]}%nat : gset nat) ⊆ candidate ∨ ({[0; 3; 6]}%nat : gset nat) ⊆ candidate ∨
    ({[1; 4; 7]}%nat : gset nat) ⊆ candidate ∨ ({[2; 5; 8]}%nat : gset nat) ⊆ candidate ∨
    ({[0; 4; 8]}%nat : gset nat) ⊆ candidate ∨ ({[2; 4; 6]}%nat : gset nat) ⊆ candidate.
Proof.
  rewrite check_win_true. unfold winners. split.
  - intros (w & Hin & Hsub).
    repeat (apply elem_of_cons in Hin as [->|Hin]; [tauto|]).
    by apply elem_of_nil in Hin.
  - intros H. repeat destruct H as [H|H];
      (eexists; split; [|exact H]); repeat (first [left; reflexivity | right]).
Qed.

Lemma check_win_iff_triple_subset_witness :
  check_win ({[0; 4; 5; 8]}%nat : gset nat) = true.
Proof.
  apply (check_win_iff_triple_subset {[0; 4; 5; 8]}%nat).
  do 6 right. left. set_solver.
Defined.

(** ** The status of a board *)

(** C1: [evaluate_game_status] applies its checks in this order, on
    every state and so on every 9-cell board: impossible when the
    numbers of X and of O differ by more than one; otherwise impossible
    when both marks hold a winning line; otherwise a win of X when X
    holds one; otherwise a win of O when O holds one; otherwise not
    finished when some cell is blank; otherwise a draw. *)
Theorem evaluate_game_status_priority (state : str) :
  let count_x := Z.of_nat (count_cells "X" state) in
  let count_o := Z.of_nat (count_cells "O" state) in
  let win_x := holds_line state "X" in
  let win_o := holds_line state "O" in
  (Z.abs (count_x - count_o) > 1 → evaluate_game_status state = IMPOSSIBLE) ∧
  (Z.abs (count_x - count_o) ≤ 1 →
     (win_x ∧ win_o → evaluate_game_status state = IMPOSSIBLE) ∧
     (win_x ∧ ¬ win_o → evaluate_game_status state = X_WIN) ∧
     (¬ win_x ∧ win_o → evaluate_game_status state = O_WIN) ∧
     (¬ win_x ∧ ¬ win_o →
        (" "%char ∈ state → evaluate_game_status state = NOT_FINISHED) ∧
        (" "%char ∉ state → evaluate_game_status state = DRAW))).
Proof.
  intros count_x count_o win_x win_o.
  unfold evaluate_game_status, get_blank_count, lit; simpl list_ascii_of_string.
  rewrite !get_candidate_size. fold count_x count_o.
  pose proof (check_win_holds_line state "X") as Hx.
  pose proof (check_win_holds_line state "O") as Ho.
  pose proof (count_cells_pos state " ") as Hblank.
  fold win_x in Hx. fold win_o in Ho.
  destruct (check_win (get_candidate state ["X"%char])),
           (check_win (get_candidate state ["O"%char])); simpl.
  all: split; [intros Habs; by rewrite bool_decide_eq_true_2|].
  all: intros Habs; rewrite (bool_decide_eq_false_2 (_ > 1)) by lia.
  all: repeat split; try (intros [? ?]); try tauto.
  all: try (exfalso; intuition congruence).
  - intros Hin. rewrite bool_decide_eq_true_2; [done|]. apply Hblank in Hin. lia.
  - intros Hin. rewrite bool_decide_eq_false_2; [done|].
    intros Hpos. apply Hin, Hblank. lia.
Qed.

Lemma evaluate_game_status_priority_witness :
  evaluate_game_status (lit "XXXOO    ") = X_WIN.
Proof.
  destruct (evaluate_game_status_priority (lit "XXXOO    ")) as [_ H].
  destruct H as (_ & H & _); [vm_compute; congruence|].
  apply H. split.
  - apply check_win_holds_line. vm_compute. reflexivity.
  - intros Hline%check_win_holds_line. vm_compute in Hline. discriminate.
Defined.

(** C2: on every 9-cell board of blanks, X and O, reachable by play or
    not, [evaluate_game_status] returns one status, and it is one of
    the five members of [GameStatus]. *)
Theorem evaluate_game_status_total (state : str) :
  board state →
  ∃ g, evaluate_game_status state = g ∧
       g ∈ [NOT_FINISHED; X_WIN; O_WIN; DRAW; IMPOSSIBLE] ∧
       ∀ g', evaluate_game_status state = g' → g' = g.
Proof.
  intros _. exists (evaluate_game_status state).
  split; [done|]. split; [|by intros g' <-].
  destruct (evaluate_game_status state); set_solver.
Qed.

Lemma evaluate_game_status_total_witness :
  ∃ g, evaluate_game_status (lit "OOOXXXOX ") = g ∧
       g ∈ [NOT_FINISHED; X_WIN; O_WIN; DRAW; IMPOSSIBLE] ∧
       ∀ g', evaluate_game_status (lit "OOOXXXOX ") = g' → g' = g.
Proof.
  apply (evaluate_game_status_total (lit "OOOXXXOX ")).
  split; [reflexivity|].
  repeat constructor; unfold cell_ok; tauto.
Defined.

(** ** Symmetry *)

Lemma swap_mark_involutive (c : ascii) : swap_mark (swap_mark c) = c.
Proof. unfold swap_mark. repeat case_decide; congruence. Qed.

Lemma get_candidate_swap (state : str) (c : ascii) :
  get_candidate (swap_marks state) [c] = get_candidate state [swap_mark c].
Proof.
  apply set_eq. intros i. rewrite !get_candidate_elem.
  unfold swap_marks. rewrite list_lookup_fmap.
  destruct (state !! i) as [x|]; simpl; [|done].
  split; intros [= H]; f_equal.
  - by rewrite <- H, swap_mark_involutive.
  - by rewrite H, swap_mark_involutive.
Qed.

(** C7: exchanging X and O in every cell of a state exchanges the two
    wins in its status and leaves the three other statuses as they
    are. *)
Theorem evaluate_game_status_swap (state : str) :
  evaluate_game_status (swap_marks state) = mirror (evaluate_game_status state).
Proof.
  unfold evaluate_game_status, get_blank_count, lit; simpl list_ascii_of_string.
  rewrite !get_candidate_swap.
  change (swap_mark "X") with "O"%char.
  change (swap_mark "O") with "X"%char.
  change (swap_mark " ") with " "%char.
  set (nx := Z.of_nat (size (get_candidate state ["X"%char]))).
  set (no := Z.of_nat (size (get_candidate state ["O"%char]))).
  destruct (decide (Z.abs (nx - no) > 1)) as [Habs|Habs].
  - rewrite !bool_decide_eq_true_2 by lia. reflexivity.
  - rewrite !(bool_decide_eq_false_2 (Z.abs _ > 1)) by lia.
    destruct (check_win (get_candidate state ["X"%char])),
             (check_win (get_candidate state ["O"%char])); simpl; try reflexivity.
    by case_bool_decide.
Qed.

(** ** Slices and items *)

Lemma slice_to_take (s : str) (i : Z) :
  0 ≤ i → slice_to s i = take (Z.to_nat i) s.
Proof.
  intros Hi. unfold slice_to, slice_bound.
  rewrite bool_decide_eq_false_2 by lia.
  destruct (decide (i ≤ Z.of_nat (length s))).
  - f_equal. lia.
  - rewrite !take_ge; [done|lia..].
Qed.

Lemma slice_from_drop (s : str) (i : Z) :
  0 ≤ i → slice_from s i = drop (Z.to_nat i) s.
Proof.
  intros Hi. unfold slice_from, slice_bound.
  rewrite bool_decide_eq_false_2 by lia.
  destruct (decide (i ≤ Z.of_nat (length s))).
  - f_equal. lia.
  - rewrite !drop_ge; [done|lia..].
Qed.

Lemma getitem_lookup (s : str) (i : Z) (c : ascii) :
  0 ≤ i → s !! Z.to_nat i = Some c → getitem s i = Ok [c].
Proof.
  intros Hi Hc. unfold getitem.
  rewrite (bool_decide_eq_false_2 (i < 0)) by lia.
  apply lookup_lt_Some in Hc as Hlt.
  rewrite bool_decide_eq_true_2 by lia.
  by rewrite Hc.
Qed.

(** Within the string, [add_move] with a one-character mark is the
    replacement of one cell. *)
Lemma add_move_insert (state : str) (coords : Z * Z) (mark : ascii) :
  0 ≤ flatten_coordinates coords < Z.of_nat (length state) →
  add_move state coords [mark] = <[Z.to_nat (flatten_coordinates coords) := mark]> state.
Proof.
  intros Hidx. unfold add_move. simpl.
  rewrite slice_to_take, slice_from_drop by lia.
  replace (Z.to_nat (flatten_coordinates coords + 1))
    with (S (Z.to_nat (flatten_coordinates coords))) by lia.
  symmetry. apply insert_take_drop. lia.
Qed.

(** C6: on a 9-cell state and a target whose flat index lies in
    [0, 8], [add_move] with a one-character mark (so with X and with O)
    returns a state of 9 cells that holds the mark at the target and
    agrees with the input on every other cell. *)
Theorem add_move_frame (state : str) (coords : Z * Z) (mark : ascii) :
  length state = 9%nat →
  0 ≤ flatten_coordinates coords ≤ 8 →
  let index := Z.to_nat (flatten_coordinates coords) in
  let updated_state := add_move state coords [mark] in
  length updated_state = 9%nat ∧
  updated_state !! index = Some mark ∧
  ∀ j, j ≠ index → updated_state !! j = state !! j.
Proof.
  intros Hlen Hidx index updated_state. subst updated_state.
  rewrite add_move_insert by lia. fold index.
  split; [by rewrite length_insert|]. split.
  - apply list_lookup_insert_eq. subst index. lia.
  - intros j Hj. by apply list_lookup_insert_ne.
Qed.

Lemma add_move_frame_witness :
  let updated_state := add_move (lit "XO       ") (2, 2) (lit "X") in
  length updated_state = 9%nat ∧
  updated_state !! 4%nat = Some "X"%char ∧
  ∀ j, j ≠ 4%nat → updated_state !! j = lit "XO       " !! j.
Proof.
  apply (add_move_frame (lit "XO       ") (2, 2) "X").
  - reflexivity.
  - vm_compute. split; discriminate.
Defined.

(** ** Validation *)

Lemma isdigit_digit_string (s : str) : isdigit s = true ↔ digit_string s.
Proof.
  unfold digit_string. destruct s as [|a s].
  - simpl. split; [discriminate|intros [? _]; done].
  - change (isdigit (a :: s)) with (forallb is_digit (a :: s)).
    rewrite forallb_forall. split.
    + intros H. split; [done|]. intros ch Hch. by apply H, list_elem_of_In.
    + intros [_ H] ch Hch. by apply H, list_elem_of_In.
Qed.

Lemma decimal_value_decimal (s : str) (acc v : Z) :
  decimal_value acc s = Some v → ∀ ch, ch ∈ s → is_decimal ch = true.
Proof.
  revert acc. induction s as [|a s IH]; intros acc; simpl.
  - intros _ ch Hch. by apply elem_of_nil in Hch.
  - destruct (is_decimal a) eqn:Ha; [|discriminate].
    intros Hv ch [->|Hch]%elem_of_cons; [done|]. by eapply IH.
Qed.

Lemma decimal_value_total (s : str) (acc : Z) :
  (∀ ch, ch ∈ s → is_decimal ch = true) → is_Some (decimal_value acc s).
Proof.
  revert acc. induction s as [|a s IH]; intros acc Hs; simpl; [by eexists|].
  rewrite Hs by (by left). apply IH. intros ch Hch. apply Hs. by right.
Qed.

Lemma int_Ok_decimal (s : str) (v : Z) : int s = Ok v → decimal_string s.
Proof.
  unfold int, decimal_string. destruct s as [|a s]; [discriminate|].
  destruct (decimal_value 0 (a :: s)) as [w|] eqn:Hw; [|discriminate].
  intros _. split; [done|]. by eapply decimal_value_decimal.
Qed.

(** Below the threshold of the limit every decimal token converts. *)
Lemma decimal_int_Ok (s : str) :
  decimal_string s → (length s ≤ int_str_digits_threshold)%nat →
  ∃ v, int s = Ok v.
Proof.
  intros [Hne Hs] Hlen. destruct (decimal_value_total s 0 Hs) as [v Hv].
  exists v. unfold int, over_digit_limit. destruct s; [done|]. rewrite Hv.
  apply Nat.ltb_ge in Hlen. by rewrite Hlen.
Qed.

Lemma decimal_digit_string (s : str) : decimal_string s → digit_string s.
Proof.
  intros [Hne Hs]. split; [done|]. intros ch Hch.
  unfold is_digit. by rewrite (Hs ch Hch).
Qed.

Lemma validate_move_nonnumeric (state row col : str) :
  isdigit row = false ∨ isdigit col = false →
  validate_move state (row, col) = Raise NonNumericError.
Proof.
  intros H. unfold validate_move.
  destruct H as [-> | ->]; simpl; [done|]. by rewrite orb_true_r.
Qed.

(** After the numeric check and the two conversions, what remains of
    [validate_move] is the range check and the look at the cell. *)
Lemma validate_move_parsed (state row col : str) (r c : Z) :
  isdigit row = true → isdigit col = true →
  int row = Ok r → int col = Ok c →
  validate_move state (row, col) =
    if bool_decide (1 ≤ r ≤ 3 ∧ 1 ≤ c ≤ 3)
    then cell ← getitem state (flatten_coordinates (r, c));
         if bool_decide (cell ∈ [lit "X"; lit "O"]) then Raise OccupiedCellError
         else Ok (r, c)
    else Raise CoordinateError.
Proof.
  intros Hrow Hcol Hr Hc. unfold validate_move.
  rewrite Hrow, Hcol, Hr, Hc. simpl. unfold in_range.
  repeat case_bool_decide; simpl; try reflexivity; lia.
Qed.

Lemma validate_move_cell (state row col : str) (r c : Z) (ch : ascii) :
  isdigit row = true → isdigit col = true →
  int row = Ok r → int col = Ok c →
  1 ≤ r ≤ 3 → 1 ≤ c ≤ 3 →
  state !! Z.to_nat (flatten_coordinates (r, c)) = Some ch →
  validate_move state (row, col) =
    if bool_decide (ch = "X"%char ∨ ch = "O"%char) then Raise OccupiedCellError
    else Ok (r, c).
Proof.
  intros Hrow Hcol Hr Hc Hrr Hcr Hch.
  rewrite (validate_move_parsed state row col r c) by done.
  rewrite bool_decide_eq_true_2 by done.
  rewrite (getitem_lookup state _ ch); [|unfold flatten_coordinates; simpl; lia|done].
  simpl. unfold lit; simpl list_ascii_of_string.
  repeat case_bool_decide; try reflexivity; set_solver.
Qed.

(** C10: a cell is occupied when it holds X or O, and only then: on a
    numeric pair within range, [validate_move] raises
    [OccupiedCellError] when the target cell holds X or O and returns
    the coordinates when it holds any other character, blank or not. *)
Theorem validate_move_occupancy (state row col : str) (r c : Z) (ch : ascii) :
  isdigit row = true → isdigit col = true →
  int row = Ok r → int col = Ok c →
  1 ≤ r ≤ 3 → 1 ≤ c ≤ 3 →
  state !! Z.to_nat (flatten_coordinates (r, c)) = Some ch →
  (ch ≠ "X"%char ∧ ch ≠ "O"%char → validate_move state (row, col) = Ok (r, c)) ∧
  (ch = "X"%char ∨ ch = "O"%char →
     validate_move state (row, col) = Raise OccupiedCellError).
Proof.
  intros Hrow Hcol Hr Hc Hrr Hcr Hch.
  rewrite (validate_move_cell state row col r c ch) by done.
  split; intros H.
  - rewrite bool_decide_eq_false_2; [done|tauto].
  - by rewrite bool_decide_eq_true_2.
Qed.

Lemma int_Raise (s : str) (e : exn) : int s = Raise e → e = ValueError.
Proof.
  unfold int. destruct s; [by intros [= <-]|].
  destruct (decimal_value _ _); [|by intros [= <-]].
  destruct (over_digit_limit _); [by intros [= <-]|discriminate].
Qed.

Lemma getitem_Raise (s : str) (i : Z) (e : exn) :
  getitem s i = Raise e → e = IndexError.
Proof.
  unfold getitem. case_bool_decide; [|by intros [= <-]].
  destruct (s !! _); [discriminate|by intros [= <-]].
Qed.

(** [NonNumericError] comes from the first check alone. *)
Lemma validate_move_NonNumericError (state row col : str) :
  validate_move state (row, col) = Raise NonNumericError →
  isdigit row = false ∨ isdigit col = false.
Proof.
  destruct (isdigit row) eqn:Hrow; [|by left].
  destruct (isdigit col) eqn:Hcol; [|by right].
  unfold validate_move. rewrite Hrow, Hcol. simpl.
  destruct (int row) as [r|e] eqn:Hr; simpl.
  2: { apply int_Raise in Hr as ->. discriminate. }
  destruct (int col) as [c|e] eqn:Hc; simpl.
  2: { apply int_Raise in Hc as ->. discriminate. }
  case_match; [discriminate|].
  destruct (getitem state _) as [cell|e] eqn:Hcell; simpl.
  2: { apply getitem_Raise in Hcell as ->. discriminate. }
  case_bool_decide; discriminate.
Qed.

Lemma cell_in_range (state : str) (r c : Z) :
  length state = 9%nat → 1 ≤ r ≤ 3 → 1 ≤ c ≤ 3 →
  ∃ ch, state !! Z.to_nat (flatten_coordinates (r, c)) = Some ch ∧ ch ∈ state.
Proof.
  intros Hlen Hr Hc.
  destruct (lookup_lt_is_Some_2 state (Z.to_nat (flatten_coordinates (r, c))))
    as [ch Hch].
  - unfold flatten_coordinates. simpl. lia.
  - exists ch. split; [done|]. by eapply list_elem_of_lookup_2.
Qed.

Lemma int_Ok_isdigit (s : str) (v : Z) : int s = Ok v → isdigit s = true.
Proof.
  intros H%int_Ok_decimal. by apply isdigit_digit_string, decimal_digit_string.
Qed.

(** C9: on a board whose nine cells all hold X or O, every numeric
    pair within [1, 3] is refused with [OccupiedCellError]; a pair that
    fails the numeric check is refused with [NonNumericError], and a
    numeric pair out of range with [CoordinateError], whatever the
    cells hold. *)
Theorem validate_move_full_board (state row col : str) :
  length state = 9%nat →
  (∀ ch, ch ∈ state → ch = "X"%char ∨ ch = "O"%char) →
  (∀ r c, isdigit row = true → isdigit col = true →
          int row = Ok r → int col = Ok c →
          1 ≤ r ≤ 3 → 1 ≤ c ≤ 3 →
          validate_move state (row, col) = Raise OccupiedCellError) ∧
  (isdigit row = false ∨ isdigit col = false →
   validate_move state (row, col) = Raise NonNumericError) ∧
  (∀ r c, isdigit row = true → isdigit col = true →
          int row = Ok r → int col = Ok c →
          ¬ (1 ≤ r ≤ 3 ∧ 1 ≤ c ≤ 3) →
          validate_move state (row, col) = Raise CoordinateError).
Proof.
  intros Hlen Hfull. split; [|split].
  - intros r c Hrow Hcol Hr Hc Hrr Hcr.
    destruct (cell_in_range state r c) as (ch & Hch & Hin); [done..|].
    rewrite (validate_move_cell state row col r c ch) by done.
    by rewrite bool_decide_eq_true_2 by auto.
  - apply validate_move_nonnumeric.
  - intros r c Hrow Hcol Hr Hc Hout.
    rewrite (validate_move_parsed state row col r c) by done.
    by rewrite bool_decide_eq_false_2.
Qed.

(** C4, as the code has it: on a board, the checks of [validate_move]
    come in a fixed order and the first failure decides.  It raises
    [NonNumericError] exactly when a token is empty or holds a
    character that [isdigit] refuses, a sign included.  Otherwise, for
    tokens written in the decimal digits 0-9 with values [r] and [c]:
    it raises [CoordinateError] exactly when [r] or [c] is outside
    [1, 3]; otherwise [OccupiedCellError] exactly when the cell at
    [(r-1)*3 + (c-1)] is not blank; otherwise it returns [(r, c)]. *)
Theorem validate_move_order (state row col : str) :
  board state →
  (validate_move state (row, col) = Raise NonNumericError ↔
     ¬ (digit_string row ∧ digit_string col)) ∧
  ∀ r c, int row = Ok r → int col = Ok c →
    let in_bounds := 1 ≤ r ≤ 3 ∧ 1 ≤ c ≤ 3 in
    let cell := state !! Z.to_nat (flatten_coordinates (r, c)) in
    (validate_move state (row, col) = Raise CoordinateError ↔ ¬ in_bounds) ∧
    (validate_move state (row, col) = Raise OccupiedCellError ↔
       in_bounds ∧ cell ≠ Some " "%char) ∧
    (validate_move state (row, col) = Ok (r, c) ↔
       in_bounds ∧ cell = Some " "%char).
Proof.
  intros [Hlen Hcells]. split.
  - rewrite <- !isdigit_digit_string. split.
    + intros [H|H]%validate_move_NonNumericError; rewrite H; intros [? ?]; done.
    + intros H. apply validate_move_nonnumeric.
      destruct (isdigit row), (isdigit col); tauto.
  - intros r c Hr Hc in_bounds cell. subst in_bounds cell.
    pose proof (int_Ok_isdigit _ _ Hr) as Hrow.
    pose proof (int_Ok_isdigit _ _ Hc) as Hcol.
    destruct (decide (1 ≤ r ≤ 3 ∧ 1 ≤ c ≤ 3)) as [[Hrr Hcr]|Hout].
    + destruct (cell_in_range state r c) as (ch & Hch & Hin); [done..|].
      rewrite (validate_move_cell state row col r c ch), Hch by done.
      rewrite Forall_forall in Hcells. apply Hcells in Hin.
      case_bool_decide; destruct Hin as [-> | [-> | ->]]; naive_solver.
    + rewrite (validate_move_parsed state row col r c) by done.
      rewrite bool_decide_eq_false_2 by done.
      repeat split; try done; tauto.
Qed.

(** ** Turns *)

Lemma str_in_XO (x : ascii) :
  str_in [x] (lit "XO") = true ↔ x = "X"%char ∨ x = "O"%char.
Proof.
  unfold lit. simpl. rewrite !andb_true_r, orb_false_r, orb_true_iff.
  by rewrite !bool_decide_eq_true.
Qed.

Lemma get_player_count_marks (state : str) :
  get_player state = if Nat.even (count_marks state) then lit "X" else lit "O".
Proof.
  unfold get_player. fold (count_marks state).
  destruct (Nat.even (count_marks state)) eqn:Heven.
  - apply Nat.even_spec in Heven as [n ->].
    rewrite bool_decide_eq_true_2; [done|].
    rewrite Nat2Z.inj_mul, Z.mul_comm. apply Z_mod_mult.
  - rewrite bool_decide_eq_false_2; [done|].
    rewrite <- Nat.negb_odd in Heven. apply negb_false_iff in Heven.
    apply Nat.odd_spec in Heven as [n ->].
    rewrite Nat2Z.inj_add, Nat2Z.inj_mul, Z.add_comm, Z.mul_comm.
    rewrite Z_mod_plus_full. done.
Qed.

Lemma count_marks_nonblank (state : str) :
  Forall cell_ok state → count_marks state = count_nonblank state.
Proof.
  unfold count_marks, count_nonblank.
  induction 1 as [|x state Hx _ IH]; [done|].
  rewrite (filter_cons (λ y, y ≠ " "%char)).
  rewrite (filter_cons (λ y : ascii, str_in [y] (lit "XO") = true)).
  pose proof (str_in_XO x) as Hin. unfold cell_ok in Hx.
  repeat case_decide; cbn [length]; rewrite ?IH; try done.
  all: exfalso; destruct Hin as [Hin1 Hin2].
  all: destruct Hx as [-> | Hx]; [|naive_solver].
  all: destruct Hin1 as [?|?]; done.
Qed.

Lemma get_player_mark (state : str) :
  get_player state = ["X"%char] ∨ get_player state = ["O"%char].
Proof. unfold get_player. case_bool_decide; [by left|by right]. Qed.

Lemma getitem_Ok (s : str) (i : Z) (cell : str) :
  0 ≤ i → getitem s i = Ok cell → ∃ ch, s !! Z.to_nat i = Some ch ∧ cell = [ch].
Proof.
  intros Hi. unfold getitem.
  rewrite (bool_decide_eq_false_2 (i < 0)) by lia.
  case_bool_decide; [|discriminate].
  destruct (s !! Z.to_nat i) as [ch|]; [|discriminate].
  intros [= <-]. by exists ch.
Qed.

(** What an accepted move tells about the coordinates and the cell. *)
Lemma validate_move_Ok (state : str) (coords : str * str) (checked : Z * Z) :
  validate_move state coords = Ok checked →
  1 ≤ checked.1 ≤ 3 ∧ 1 ≤ checked.2 ≤ 3 ∧
  ∃ ch, state !! Z.to_nat (flatten_coordinates checked) = Some ch ∧
        ch ≠ "X"%char ∧ ch ≠ "O"%char.
Proof.
  destruct coords as [row col]. unfold validate_move.
  destruct (negb (isdigit row) || negb (isdigit col)); [discriminate|].
  destruct (int row) as [r|]; [|discriminate].
  destruct (int col) as [c|]; [|discriminate]. simpl.
  unfold in_range. repeat case_bool_decide; simpl; try discriminate.
  destruct (getitem state (flatten_coordinates (r, c))) as [cell|] eqn:Hcell;
    [|discriminate]. simpl.
  case_bool_decide as Hocc; [discriminate|]. intros [= <-]. simpl.
  apply getitem_Ok in Hcell as (ch & Hch & ->);
    [|unfold flatten_coordinates; simpl; lia].
  repeat split; try lia. exists ch. split; [done|].
  unfold lit in Hocc. simpl in Hocc. set_solver.
Qed.

Lemma count_nonblank_insert (state : str) (i : nat) (mark : ascii) :
  state !! i = Some " "%char → mark ≠ " "%char →
  count_nonblank (<[i := mark]> state) = S (count_nonblank state).
Proof.
  unfold count_nonblank. revert i.
  induction state as [|x state IH]; intros i Hi Hmark; [done|].
  destruct i as [|i]; simpl in Hi.
  - injection Hi as ->. simpl.
    rewrite !(filter_cons (λ y, y ≠ " "%char)).
    rewrite decide_True by done. by rewrite decide_False by auto.
  - simpl. rewrite !(filter_cons (λ y, y ≠ " "%char)).
    case_decide; simpl; by rewrite IH.
Qed.

Lemma played_invariant (k : nat) (state : str) :
  played k state → board state ∧ count_nonblank state = k.
Proof.
  induction 1 as [|k state coords checked _ [[Hlen Hcells] Hcount] Hvalid].
  - split; [|reflexivity]. split; [reflexivity|].
    repeat constructor; unfold cell_ok; tauto.
  - apply validate_move_Ok in Hvalid as (Hr & Hc & ch & Hch & HX & HO).
    assert (Hidx : 0 ≤ flatten_coordinates checked < Z.of_nat (length state)).
    { destruct checked as [r c]. unfold flatten_coordinates. simpl in *. lia. }
    assert (ch = " "%char) as ->.
    { rewrite Forall_forall in Hcells.
      destruct (Hcells ch) as [?|[?|?]]; [by eapply list_elem_of_lookup_2|done..]. }
    destruct (get_player_mark state) as [-> | ->];
      rewrite add_move_insert by done.
    all: split; [split; [by rewrite length_insert|]|].
    all: try (apply Forall_insert; [done|unfold cell_ok; tauto]).
    all: by rewrite count_nonblank_insert, Hcount.
Qed.

(** C5: on a board, [get_player] returns X when the number of cells
    that are not blank is even and O when it is odd; so after [k]
    validated moves from the blank board the player to move is X for
    an even [k] and O for an odd one. *)
Theorem get_player_alternates (state : str) :
  board state →
  get_player state = (if Nat.even (count_nonblank state) then lit "X" else lit "O") ∧
  ∀ k, played k state →
       get_player state = if Nat.even k then lit "X" else lit "O".
Proof.
  intros [Hlen Hcells].
  assert (get_player state
          = if Nat.even (count_nonblank state) then lit "X" else lit "O") as Hparity.
  { by rewrite get_player_count_marks, count_marks_nonblank. }
  split; [done|].
  intros k [_ <-]%played_invariant. done.
Qed.

(** ** The driver and a refused move *)

Lemma loop_body_tokens (d : driver) (move : list str) (row col : str) :
  move !! 0%nat = Some row → move !! 1%nat = Some col →
  loop_body d move =
    match validate_move (game_state d) (row, col) with
    | Ok checked_coords =>
        let game_state' :=
          add_move (game_state d) checked_coords (get_player (game_state d)) in
        Ok (Driver game_state' (evaluate_game_status game_state')
                   (stdout d ++ display_game_state game_state'))
    | Raise NonNumericError => Ok (print [message NonNumericError] d)
    | Raise CoordinateError => Ok (print [message CoordinateError] d)
    | Raise OccupiedCellError => Ok (print [message OccupiedCellError] d)
    | Raise e => Raise e
    end.
Proof. intros H0 H1. unfold loop_body, token. by rewrite H0, H1. Qed.

(** C8: [validate_move] only reads the state it is given.  When it
    refuses a pair of tokens with one of its three errors, the
    iteration of the driver ends with the same board and the same
    status, hence the same player to move, having printed the message
    of the error, and the loop goes on to the next line; when it
    accepts the pair, the move is applied to the board that it was
    given. *)
Theorem validate_move_leaves_state (d : driver) (move : list str) (row col : str) :
  move !! 0%nat = Some row → move !! 1%nat = Some col →
  (∀ e, validate_move (game_state d) (row, col) = Raise e →
        e = NonNumericError ∨ e = CoordinateError ∨ e = OccupiedCellError →
        ∃ d', loop_body d move = Ok d' ∧
              game_state d' = game_state d ∧
              game_status d' = game_status d ∧
              get_player (game_state d') = get_player (game_state d) ∧
              stdout d' = stdout d ++ [message e] ∧
              ∀ inputs, game_status d = NOT_FINISHED →
                        while_loop (move :: inputs) d = while_loop inputs d') ∧
  (∀ checked_coords,
        validate_move (game_state d) (row, col) = Ok checked_coords →
        ∃ d', loop_body d move = Ok d' ∧
              game_state d' =
                add_move (game_state d) checked_coords (get_player (game_state d))).
Proof.
  intros H0 H1. rewrite (loop_body_tokens d move row col H0 H1). split.
  - intros e He Hkind. rewrite He.
    exists (print [message e] d).
    assert (loop_body d move = Ok (print [message e] d)) as Hbody.
    { rewrite (loop_body_tokens d move row col H0 H1), He.
      by destruct Hkind as [-> | [-> | ->]]. }
    split; [by destruct Hkind as [-> | [-> | ->]]|].
    repeat split; try reflexivity.
    intros inputs Hstatus. simpl.
    rewrite bool_decide_eq_true_2 by done. by rewrite Hbody.
  - intros checked_coords ->. by eexists.
Qed.

(** * Further properties of the engine *)

(** ** Coordinates and [add_move] outside the claims *)

(** X1: on the nine legal coordinate pairs [flatten_coordinates] is a
    bijection onto the flat indices 0-8: the row and the column are
    recovered from the index by division by 3, and every index in
    [0, 8] is the image of a legal pair. *)
Theorem flatten_coordinates_bijection :
  (∀ r c, 1 ≤ r ≤ 3 → 1 ≤ c ≤ 3 →
     let index := flatten_coordinates (r, c) in
     0 ≤ index ≤ 8 ∧ r = index `div` 3 + 1 ∧ c = index `mod` 3 + 1) ∧
  (∀ index, 0 ≤ index ≤ 8 →
     let r := index `div` 3 + 1 in
     let c := index `mod` 3 + 1 in
     1 ≤ r ≤ 3 ∧ 1 ≤ c ≤ 3 ∧ flatten_coordinates (r, c) = index).
Proof.
  split.
  - intros r c Hr Hc. unfold flatten_coordinates. simpl.
    assert (r = 1 ∨ r = 2 ∨ r = 3) as [-> | [-> | ->]] by lia;
      assert (c = 1 ∨ c = 2 ∨ c = 3) as [-> | [-> | ->]] by lia;
      vm_compute; repeat split; congruence.
  - intros index Hindex. unfold flatten_coordinates. simpl.
    pose proof (Z.div_mod index 3 ltac:(lia)) as Hdm.
    pose proof (Z.mod_pos_bound index 3 ltac:(lia)) as Hmod.
    assert (0 ≤ index `div` 3 < 3).
    { split; [apply Z.div_pos; lia|]. apply Z.div_lt_upper_bound; lia. }
    lia.
Qed.

Lemma flatten_coordinates_bijection_witness :
  flatten_coordinates (3, 2) = 7 ∧ 3 = 7 `div` 3 + 1 ∧ 2 = 7 `mod` 3 + 1.
Proof.
  destruct flatten_coordinates_bijection as [H _].
  destruct (H 3 2) as (_ & Hr & Hc); [lia..|].
  split; [reflexivity|]. split; [exact Hr|exact Hc].
Defined.

Lemma slice_to_negative (s : str) (i : Z) :
  i < 0 → slice_to s i = take (Z.to_nat (i + Z.of_nat (length s))) s.
Proof.
  intros Hi. unfold slice_to, slice_bound.
  rewrite bool_decide_eq_true_2 by lia. f_equal. lia.
Qed.

Lemma slice_from_negative (s : str) (i : Z) :
  i < 0 → slice_from s i = drop (Z.to_nat (i + Z.of_nat (length s))) s.
Proof.
  intros Hi. unfold slice_from, slice_bound.
  rewrite bool_decide_eq_true_2 by lia. f_equal. lia.
Qed.

(** X2: [add_move] checks nothing and never raises.  With a flat index
    at or past the end of the state it appends the mark, and with one
    before the start (below [-len]) it puts the mark in front: in both
    cases the state grows instead of being refused. *)
Theorem add_move_outside (state : str) (coords : Z * Z) (char : str) :
  let index := flatten_coordinates coords in
  let len := Z.of_nat (length state) in
  (len ≤ index → add_move state coords char = state ++ char) ∧
  (index < - len → add_move state coords char = char ++ state).
Proof.
  intros index len. subst index len. unfold add_move. split; intros Hidx.
  - rewrite slice_to_take, slice_from_drop by lia.
    rewrite take_ge, drop_ge by lia. by rewrite app_nil_r.
  - unfold slice_to, slice_from.
    assert (slice_bound (length state) (flatten_coordinates coords) = 0%nat)
      as -> by (unfold slice_bound; case_bool_decide; lia).
    assert (slice_bound (length state) (flatten_coordinates coords + 1) = 0%nat)
      as -> by (unfold slice_bound; case_bool_decide; lia).
    by rewrite take_0, drop_0.
Qed.

Lemma add_move_outside_witness :
  add_move (lit "XO       ") (4, 1) (lit "X") = lit "XO       X" ∧
  add_move (lit "XO       ") (-3, 1) (lit "X") = lit "XXO       ".
Proof.
  destruct (add_move_outside (lit "XO       ") (4, 1) (lit "X")) as [Hpast _].
  destruct (add_move_outside (lit "XO       ") (-3, 1) (lit "X")) as [_ Hbefore].
  split; [apply Hpast|apply Hbefore]; vm_compute; congruence.
Defined.

(** X3: a negative flat index from [-len] to [-2] counts from the end,
    as Python slices do: [add_move] then replaces the cell [len + index]
    and leaves the others; the index [-1] instead keeps all but the
    last cell, then the mark, then the whole state again. *)
Theorem add_move_negative (state : str) (coords : Z * Z) (mark : ascii) :
  let index := flatten_coordinates coords in
  let len := Z.of_nat (length state) in
  (- len ≤ index ≤ -2 →
     add_move state coords [mark] = <[Z.to_nat (len + index) := mark]> state) ∧
  (index = -1 →
     add_move state coords [mark]
     = take (length state - 1) state ++ [mark] ++ state).
Proof.
  intros index len. subst index len. unfold add_move. split; intros Hidx.
  - rewrite slice_to_negative, slice_from_negative by lia.
    replace (Z.to_nat (flatten_coordinates coords + 1 + Z.of_nat (length state)))
      with (S (Z.to_nat (Z.of_nat (length state) + flatten_coordinates coords)))
      by lia.
    replace (Z.to_nat (flatten_coordinates coords + Z.of_nat (length state)))
      with (Z.to_nat (Z.of_nat (length state) + flatten_coordinates coords))
      by lia.
    symmetry. apply insert_take_drop. lia.
  - rewrite slice_to_negative by lia. rewrite Hidx. simpl.
    rewrite slice_from_drop by lia. simpl. rewrite drop_0.
    do 2 f_equal. lia.
Qed.

Lemma add_move_negative_witness :
  add_move (lit "XO       ") (0, 0) (lit "X") = lit "XO   X   " ∧
  add_move (lit "XO       ") (1, 0) (lit "X") = lit "XO      XXO       ".
Proof.
  destruct (add_move_negative (lit "XO       ") (0, 0) "X") as [Hwrap _].
  destruct (add_move_negative (lit "XO       ") (1, 0) "X") as [_ Hlast].
  split.
  - etrans; [apply Hwrap|reflexivity]. vm_compute. split; congruence.
  - etrans; [apply Hlast|]; reflexivity.
Defined.

(** X4: within the state [add_move] takes out one cell and puts the
    string [char] in its place, whatever its length: the result has
    [len - 1 + len(char)] cells, so a mark of one character keeps the
    length, an empty one removes a cell and a longer one adds cells. *)
Theorem add_move_length (state : str) (coords : Z * Z) (char : str) :
  0 ≤ flatten_coordinates coords < Z.of_nat (length state) →
  length (add_move state coords char) = (length state - 1 + length char)%nat.
Proof.
  intros Hidx. unfold add_move.
  rewrite slice_to_take, slice_from_drop by lia.
  rewrite !length_app, length_take, length_drop. lia.
Qed.

Lemma add_move_length_witness :
  length (add_move (lit "XO       ") (2, 2) (lit "")) = 8%nat ∧
  length (add_move (lit "XO       ") (2, 2) (lit "XO")) = 10%nat.
Proof.
  split.
  - apply (add_move_length (lit "XO       ") (2, 2) (lit "")).
    vm_compute. split; congruence.
  - apply (add_move_length (lit "XO       ") (2, 2) (lit "XO")).
    vm_compute. split; congruence.
Defined.

(** X5: [add_move] does not look at what the cell holds.  Two moves on
    the same cell leave the second mark, and two moves on different
    cells of the state give the same state in either order. *)
Theorem add_move_compose (state : str) (coords coords' : Z * Z) (m m' : ascii) :
  0 ≤ flatten_coordinates coords < Z.of_nat (length state) →
  0 ≤ flatten_coordinates coords' < Z.of_nat (length state) →
  add_move (add_move state coords [m]) coords [m'] = add_move state coords [m'] ∧
  (flatten_coordinates coords ≠ flatten_coordinates coords' →
   add_move (add_move state coords [m]) coords' [m']
   = add_move (add_move state coords' [m']) coords [m]).
Proof.
  intros Hidx Hidx'.
  rewrite !(add_move_insert state) by done.
  rewrite !add_move_insert by (rewrite length_insert; done).
  split; [apply list_insert_insert_eq|].
  intros Hne. apply list_insert_insert_ne. lia.
Qed.

Lemma add_move_compose_witness :
  add_move (add_move (lit "XO       ") (1, 1) (lit "O")) (1, 1) (lit "X")
  = add_move (lit "XO       ") (1, 1) (lit "X").
Proof.
  apply (add_move_compose (lit "XO       ") (1, 1) (3, 3) "O" "X");
    vm_compute; split; congruence.
Defined.

(** ** Rendering *)

Lemma every_other_str_join (sp : ascii) (chunk : str) :
  every_other (str_join [sp] chunk) = chunk.
Proof.
  induction chunk as [|a chunk IH]; [done|].
  destruct chunk as [|b chunk]; [done|].
  change (str_join [sp] (a :: b :: chunk))
    with (a :: sp :: str_join [sp] (b :: chunk)).
  cbn [every_other]. by rewrite IH.
Qed.

Lemma read_row_line (chunk : str) :
  read_row (lit "| " ++ str_join (lit " ") chunk ++ lit " |") = chunk.
Proof.
  unfold read_row.
  change (lit "| " ++ str_join (lit " ") chunk ++ lit " |")
    with ("|"%char :: " "%char :: (str_join [" "%char] chunk ++ lit " |")).
  cbn [drop length].
  replace (S (S (length (str_join [" "%char] chunk ++ lit " |"))) - 4)%nat
    with (length (str_join [" "%char] chunk))
    by (rewrite length_app; simpl; lia).
  rewrite drop_0, take_app_length. apply every_other_str_join.
Qed.

Lemma row_slices_join (state : str) : mjoin (row_slices state) = state.
Proof.
  assert (∀ n (s : str), (length s ≤ n)%nat → mjoin (row_slices s) = s) as H.
  { induction n as [|n IH]; intros s Hs.
    - destruct s; [done|simpl in Hs; lia].
    - destruct s as [|a [|b [|c rest]]]; try done.
      change (mjoin (row_slices (a :: b :: c :: rest)))
        with (a :: b :: c :: mjoin (row_slices rest)).
      do 3 f_equal. apply IH. simpl in Hs. lia. }
  by apply (H (length state)).
Qed.

(** X6: the printed board loses nothing: reading the rows back from the
    lines that [display_game_state] prints gives the state again, for a
    state of any length, so two different states are never printed
    alike. *)
Theorem display_game_state_round_trip (state state' : str) :
  read_display (display_game_state state) = state ∧
  (display_game_state state = display_game_state state' → state = state').
Proof.
  assert (∀ s : str, read_display (display_game_state s) = s) as Hread.
  { intros s. unfold read_display, display_game_state.
    set (rows := (λ chunk, lit "| " ++ chunk ++ lit " |")
                   <$> (str_join (lit " ") <$> row_slices s)).
    change ([lit "---------"] ++ rows ++ [lit "---------"])
      with (lit "---------" :: (rows ++ [lit "---------"])).
    cbn [drop length].
    replace (S (length (rows ++ [lit "---------"])) - 2)%nat
      with (length rows) by (rewrite length_app; simpl; lia).
    rewrite drop_0, take_app_length. subst rows.
    rewrite <- !list_fmap_compose.
    rewrite <- (row_slices_join s) at 2. f_equal.
    rewrite <- (list_fmap_id (row_slices s)) at 2.
    apply list_fmap_ext. intros i chunk _. simpl. apply read_row_line. }
  split; [apply Hread|].
  intros Heq. by rewrite <- (Hread state), Heq, Hread.
Qed.

Lemma row_slices_full (n : nat) (state : str) :
  length state = (3 * n)%nat →
  length (row_slices state) = n ∧
  Forall (λ chunk : str, length chunk = 3%nat) (row_slices state).
Proof.
  revert state. induction n as [|n IH]; intros state Hlen.
  - destruct state; [|discriminate]. by split.
  - destruct state as [|a [|b [|c rest]]]; simpl in Hlen; try lia.
    destruct (IH rest) as [Hn Hall]; [lia|].
    cbn [row_slices length]. split; [by rewrite Hn|].
    by constructor.
Qed.

Lemma str_join_length (sp : ascii) (chunk : str) :
  length (str_join [sp] chunk) = (2 * length chunk - 1)%nat.
Proof.
  induction chunk as [|a chunk IH]; [done|].
  destruct chunk as [|b chunk]; [done|].
  change (str_join [sp] (a :: b :: chunk))
    with (a :: sp :: str_join [sp] (b :: chunk)).
  cbn [length] in *. rewrite IH. lia.
Qed.

(** X7: for a state of [3 * n] cells [display_game_state] prints
    [n + 2] lines, the separator first and last, and every line is nine
    characters wide; a state of nine cells gives the 3x3 grid in five
    lines. *)
Theorem display_game_state_grid (state : str) (n : nat) :
  length state = (3 * n)%nat →
  length (display_game_state state) = (n + 2)%nat ∧
  head (display_game_state state) = Some (lit "---------") ∧
  last (display_game_state state) = Some (lit "---------") ∧
  Forall (λ line : str, length line = 9%nat) (display_game_state state).
Proof.
  intros Hlen. destruct (row_slices_full n state Hlen) as [Hn Hall].
  unfold display_game_state.
  split; [rewrite !length_app, !length_fmap, Hn; simpl; lia|].
  split; [done|]. split.
  - rewrite app_assoc. apply last_snoc.
  - apply Forall_app. split; [by repeat constructor|].
    apply Forall_app. split; [|by repeat constructor].
    rewrite <- list_fmap_compose. apply Forall_fmap.
    eapply Forall_impl; [exact Hall|]. intros chunk Hchunk. simpl.
    rewrite !length_app. change (lit " ") with [" "%char].
    rewrite str_join_length, Hchunk. reflexivity.
Qed.

Lemma display_game_state_grid_witness :
  length (display_game_state (lit "XO  X   O")) = 5%nat ∧
  head (display_game_state (lit "XO  X   O")) = Some (lit "---------") ∧
  last (display_game_state (lit "XO  X   O")) = Some (lit "---------") ∧
  Forall (λ line : str, length line = 9%nat)
         (display_game_state (lit "XO  X   O")).
Proof.
  apply (display_game_state_grid (lit "XO  X   O") 3). reflexivity.
Defined.

(** ** Candidate sets and winning lines *)

Lemma count_cells_sum (state : str) :
  Forall cell_ok state →
  (count_cells "X" state + count_cells "O" state + count_cells " " state
   = length state)%nat.
Proof.
  unfold count_cells. induction 1 as [|x state Hx _ IH]; [done|].
  rewrite !(filter_cons (λ y, y = _)). cbn [length].
  destruct Hx as [-> | [-> | ->]];
    repeat case_decide; try discriminate; try done; cbn [length]; lia.
Qed.

(** X8: the sets that [get_candidate] gives for two different
    characters never share an index, each holds indices of the state
    only, and for a string that is not one character the set is empty.
    On a board the X cells, the O cells and the blank cells together
    are the nine cells. *)
Theorem get_candidate_partition (state : str) :
  (∀ c c', c ≠ c' → get_candidate state [c] ## get_candidate state [c']) ∧
  (∀ char i, i ∈ get_candidate state char → (i < length state)%nat) ∧
  (∀ char, length char ≠ 1%nat → get_candidate state char = ∅) ∧
  (board state →
   (size (get_candidate state (lit "X")) + size (get_candidate state (lit "O"))
    + get_blank_count state = 9)%nat).
Proof.
  split; [|split; [|split]].
  - intros c c' Hne i Hi Hi'.
    apply get_candidate_elem in Hi. apply get_candidate_elem in Hi'. congruence.
  - intros char i. unfold get_candidate, candidate_indices, enumerate.
    rewrite elem_of_list_to_set, list_elem_of_fmap.
    intros [[j x] [-> [_ Hin]%list_elem_of_filter]]. simpl.
    apply enumerate_from_lookup in Hin as [_ Hin].
    rewrite Nat.sub_0_r in Hin. by eapply lookup_lt_Some.
  - intros char Hlen. apply set_eq. intros i. split; [|set_solver].
    unfold get_candidate, candidate_indices.
    rewrite elem_of_list_to_set, list_elem_of_fmap.
    intros [[j x] [_ [Heq _]%list_elem_of_filter]]. simpl in Heq.
    subst char. done.
  - intros [Hlen Hcells]. unfold get_blank_count, lit. simpl list_ascii_of_string.
    rewrite !get_candidate_size, count_cells_sum by done. exact Hlen.
Qed.

Lemma get_candidate_partition_witness :
  (size (get_candidate (lit "XO  X   O") (lit "X"))
   + size (get_candidate (lit "XO  X   O") (lit "O"))
   + get_blank_count (lit "XO  X   O") = 9)%nat.
Proof.
  destruct (get_candidate_partition (lit "XO  X   O")) as (_ & _ & _ & H).
  apply H. split; [reflexivity|]. repeat constructor; unfold cell_ok; tauto.
Defined.

Lemma winners_size (winner : gset nat) :
  winner ∈ winners → size winner = 3%nat.
Proof.
  unfold winners. intros Hin.
  repeat (apply elem_of_cons in Hin as [->|Hin]; [by vm_compute|]).
  by apply elem_of_nil in Hin.
Qed.

(** X9: [check_win] is monotone: a set that contains a winning set
    wins too, so a further mark never takes a win away; and a set of
    fewer than three indices never wins. *)
Theorem check_win_monotone (candidate candidate' : gset nat) :
  (candidate ⊆ candidate' →
   check_win candidate = true → check_win candidate' = true) ∧
  ((size candidate < 3)%nat → check_win candidate = false).
Proof.
  split.
  - intros Hsub (w & Hin & Hw)%check_win_true.
    apply check_win_true. exists w. split; [done|]. set_solver.
  - intros Hsize. apply not_true_is_false.
    intros (w & Hin & Hw)%check_win_true.
    apply subseteq_size in Hw. rewrite (winners_size w Hin) in Hw. lia.
Qed.

Lemma check_win_monotone_witness :
  check_win ({[1; 3; 4; 5]}%nat : gset nat) = true.
Proof.
  destruct (check_win_monotone {[3; 4; 5]}%nat {[1; 3; 4; 5]}%nat) as [H _].
  apply H; [set_solver|]. vm_compute. reflexivity.
Defined.

(** ** What [validate_move] returns and raises *)

Lemma over_digit_limit_short (n : nat) :
  (n ≤ int_str_digits_threshold)%nat → over_digit_limit n = false.
Proof.
  intros Hn. unfold over_digit_limit. apply Nat.ltb_ge in Hn. by rewrite Hn.
Qed.



(** X10: what an accepted move guarantees.  When [validate_move]
    returns a pair, both tokens are digit strings, the pair holds their
    values, both values lie in [1, 3], the flat index lies in [0, 8],
    and the state has a cell there that holds neither X nor O. *)
Theorem validate_move_sound (state row col : str) (checked : Z * Z) :
  validate_move state (row, col) = Ok checked →
  digit_string row ∧ digit_string col ∧
  int row = Ok checked.1 ∧ int col = Ok checked.2 ∧
  1 ≤ checked.1 ≤ 3 ∧ 1 ≤ checked.2 ≤ 3 ∧
  0 ≤ flatten_coordinates checked ≤ 8 ∧
  ∃ ch, state !! Z.to_nat (flatten_coordinates checked) = Some ch ∧
        ch ≠ "X"%char ∧ ch ≠ "O"%char.
Proof.
  intros Hvalid.
  pose proof (validate_move_Ok _ _ _ Hvalid) as (Hr & Hc & Hcell).
  revert Hvalid. unfold validate_move.
  destruct (isdigit row) eqn:Hrow; [|discriminate].
  destruct (isdigit col) eqn:Hcol; [|discriminate]. simpl.
  destruct (int row) as [r|]; [|discriminate].
  destruct (int col) as [c|]; [|discriminate]. simpl.
  case_match; [discriminate|].
  destruct (getitem state _) as [cell|]; [|discriminate]. simpl.
  case_bool_decide; [discriminate|]. intros [= <-]. simpl in *.
  repeat split; try (by apply isdigit_digit_string); try lia; try done.
  all: unfold flatten_coordinates; simpl; lia.
Qed.

(** X11: [validate_move] reads the cell without checking the length of
    the state.  On a state of nine cells or more it never raises
    [IndexError]; on a shorter state, a numeric pair within range whose
    flat index is at or past the end raises [IndexError], which the
    driver does not catch. *)
Theorem validate_move_IndexError (state row col : str) :
  ((9 ≤ length state)%nat → validate_move state (row, col) ≠ Raise IndexError) ∧
  (∀ r c, int row = Ok r → int col = Ok c →
          1 ≤ r ≤ 3 → 1 ≤ c ≤ 3 →
          Z.of_nat (length state) ≤ flatten_coordinates (r, c) →
          validate_move state (row, col) = Raise IndexError).
Proof.
  split.
  - intros Hlen. unfold validate_move.
    destruct (negb (isdigit row) || negb (isdigit col)); [discriminate|].
    destruct (int row) as [r|e] eqn:Hr; simpl.
    2: { apply int_Raise in Hr as ->. discriminate. }
    destruct (int col) as [c|e] eqn:Hc; simpl.
    2: { apply int_Raise in Hc as ->. discriminate. }
    unfold in_range. repeat case_bool_decide; simpl; try discriminate.
    destruct (lookup_lt_is_Some_2 state (Z.to_nat (flatten_coordinates (r, c))))
      as [ch Hch]; [unfold flatten_coordinates; simpl; lia|].
    rewrite (getitem_lookup state _ ch);
      [|unfold flatten_coordinates; simpl; lia|done].
    simpl. case_bool_decide; discriminate.
  - intros r c Hr Hc Hrr Hcr Hlen.
    rewrite (validate_move_parsed state row col r c)
      by eauto using int_Ok_isdigit.
    rewrite bool_decide_eq_true_2 by done.
    unfold getitem.
    rewrite (bool_decide_eq_false_2 (_ < 0))
      by (unfold flatten_coordinates; simpl; lia).
    by rewrite bool_decide_eq_false_2 by lia.
Qed.


Lemma isdigit_leading_zero (s : str) :
  s ≠ [] → isdigit ("0"%char :: s) = isdigit s.
Proof. by destruct s. Qed.

Lemma int_leading_zero (s : str) :
  s ≠ [] → (length s < int_str_digits_threshold)%nat →
  int ("0"%char :: s) = int s.
Proof.
  intros Hne Hlen. unfold int. destruct s as [|a s]; [done|].
  change (decimal_value 0 ("0"%char :: a :: s)) with (decimal_value 0 (a :: s)).
  destruct (decimal_value 0 (a :: s)); [|done].
  rewrite !over_digit_limit_short; [done|lia|simpl in *; lia].
Qed.

(** X13: leading zeros are accepted and change nothing: putting a [0]
    in front of a token that is not empty (and is shorter than the 640
    digits where the interpreter's limit starts) gives the same result
    of [validate_move]. *)
Theorem validate_move_leading_zero (state row col : str) :
  row ≠ [] → col ≠ [] →
  (length row < int_str_digits_threshold)%nat →
  (length col < int_str_digits_threshold)%nat →
  validate_move state ("0"%char :: row, col) = validate_move state (row, col) ∧
  validate_move state (row, "0"%char :: col) = validate_move state (row, col).
Proof.
  intros Hrow Hcol Hlrow Hlcol. unfold validate_move.
  by rewrite !isdigit_leading_zero, !int_leading_zero.
Qed.

(** ** A move on a board *)

Lemma count_cells_insert (state : str) (i : nat) (old mark c : ascii) :
  state !! i = Some old →
  (count_cells c (<[i := mark]> state) + (if decide (old = c) then 1 else 0)
   = count_cells c state + (if decide (mark = c) then 1 else 0))%nat.
Proof.
  unfold count_cells. revert i.
  induction state as [|x state IH]; intros i Hi; [done|].
  destruct i as [|i]; simpl in Hi.
  - injection Hi as ->. simpl.
    rewrite !(filter_cons (λ y, y = c)).
    repeat case_decide; simpl; try done; lia.
  - simpl. rewrite !(filter_cons (λ y, y = c)).
    specialize (IH i Hi). repeat case_decide; simpl in *; lia.
Qed.

Lemma count_nonblank_marks (state : str) :
  Forall cell_ok state →
  count_nonblank state = (count_cells "X" state + count_cells "O" state)%nat.
Proof.
  unfold count_nonblank, count_cells.
  induction 1 as [|x state Hx _ IH]; [done|].
  rewrite (filter_cons (λ y, y ≠ " "%char)), !(filter_cons (λ y, y = _)).
  destruct Hx as [-> | [-> | ->]];
    repeat case_decide; try discriminate; try done; cbn [length]; lia.
Qed.

Lemma get_candidate_insert_other (state : str) (i : nat) (old mark c : ascii) :
  state !! i = Some old → old ≠ c → mark ≠ c →
  get_candidate (<[i := mark]> state) [c] = get_candidate state [c].
Proof.
  intros Hi Hold Hmark. apply set_eq. intros j.
  rewrite !get_candidate_elem.
  destruct (decide (j = i)) as [->|Hne].
  - rewrite list_lookup_insert_eq by (by eapply lookup_lt_Some).
    rewrite Hi. split; intros [= ?]; done.
  - by rewrite list_lookup_insert_ne.
Qed.

(** An accepted move, made with the mark of the player to move, is
    the filling of one blank cell of the board. *)
Lemma accepted_move (state : str) (coords : str * str) (checked : Z * Z) :
  board state →
  validate_move state coords = Ok checked →
  ∃ (i : nat) (mark : ascii),
    (i < 9)%nat ∧ i = Z.to_nat (flatten_coordinates checked) ∧
    state !! i = Some " "%char ∧
    get_player state = [mark] ∧ (mark = "X"%char ∨ mark = "O"%char) ∧
    add_move state checked (get_player state) = <[i := mark]> state.
Proof.
  intros [Hlen Hcells] (Hr & Hc & ch & Hch & HX & HO)%validate_move_Ok.
  assert (Hidx : 0 ≤ flatten_coordinates checked < Z.of_nat (length state)).
  { destruct checked as [r c]. unfold flatten_coordinates. simpl in *. lia. }
  assert (ch = " "%char) as ->.
  { rewrite Forall_forall in Hcells.
    destruct (Hcells ch) as [?|[?|?]]; [by eapply list_elem_of_lookup_2|done..]. }
  exists (Z.to_nat (flatten_coordinates checked)).
  destruct (get_player_mark state) as [Hp | Hp]; rewrite Hp;
    [exists "X"%char | exists "O"%char].
  all: rewrite add_move_insert by done.
  all: repeat split; try done; try lia; tauto.
Qed.

(** X14: an accepted move keeps the board a board.  On a board, when
    [validate_move] accepts a pair and [add_move] is called with the
    mark of the player to move, the result is again nine cells of
    blanks, X and O; the target cell was blank and now holds the mark,
    every other cell is as before, and there is one blank less. *)
Theorem accepted_move_board (state : str) (coords : str * str) (checked : Z * Z) :
  board state →
  validate_move state coords = Ok checked →
  let index := Z.to_nat (flatten_coordinates checked) in
  let updated_state := add_move state checked (get_player state) in
  board updated_state ∧
  state !! index = Some " "%char ∧
  ((λ c, [c]) <$> updated_state !! index) = Some (get_player state) ∧
  (∀ j, j ≠ index → updated_state !! j = state !! j) ∧
  get_blank_count state = S (get_blank_count updated_state).
Proof.
  intros Hboard Hvalid index updated_state. subst index updated_state.
  destruct (accepted_move state coords checked Hboard Hvalid)
    as (i & mark & Hi & -> & Hblank & Hp & Hmark & ->).
  destruct Hboard as [Hlen Hcells]. rewrite Hp.
  split; [split|].
  - by rewrite length_insert.
  - apply Forall_insert; [done|]. unfold cell_ok. tauto.
  - split; [done|]. split.
    + by rewrite list_lookup_insert_eq by lia.
    + split; [intros j Hj; by apply list_lookup_insert_ne|].
      unfold get_blank_count, lit. simpl list_ascii_of_string.
      rewrite !get_candidate_size.
      pose proof (count_cells_insert state _ " " mark " " Hblank) as Hcount.
      rewrite decide_True in Hcount by done.
      rewrite decide_False in Hcount by (destruct Hmark as [-> | ->]; done).
      lia.
Qed.

(** ** Games *)

Lemma played_player (k : nat) (state : str) :
  played k state →
  get_player state = if Nat.even k then ["X"%char] else ["O"%char].
Proof.
  intros [[_ Hcells] <-]%played_invariant.
  by rewrite get_player_count_marks, count_marks_nonblank.
Qed.

Lemma played_counts (k : nat) (state : str) :
  played k state →
  (count_cells "X" state + count_cells "O" state = k)%nat ∧
  (count_cells "X" state
   = count_cells "O" state + (if Nat.even k then 0 else 1))%nat.
Proof.
  induction 1 as [|k state coords checked Hplayed [Hsum Hdiff] Hvalid].
  - by vm_compute.
  - pose proof (played_player k state Hplayed) as Hp.
    apply played_invariant in Hplayed as [Hboard _].
    destruct (accepted_move state coords checked Hboard Hvalid)
      as (i & mark & _ & _ & Hblank & Hp' & _ & ->).
    rewrite Hp in Hp'. rewrite Nat.even_succ, <- Nat.negb_even.
    pose proof (count_cells_insert state i " " mark "X" Hblank) as HX.
    pose proof (count_cells_insert state i " " mark "O" Hblank) as HO.
    destruct (Nat.even k); injection Hp' as <-; simpl;
      repeat case_decide; try done; lia.
Qed.

(** X15: after [k] validated moves from the blank board, each made
    with the mark of the player to move, X and O hold [k] cells
    together, as many each for an even [k] and one more for X for an
    odd [k]; and [k] is at most nine. *)
Theorem played_balance (k : nat) (state : str) :
  played k state →
  (k ≤ 9)%nat ∧
  (count_cells "X" state + count_cells "O" state = k)%nat ∧
  (count_cells "X" state
   = count_cells "O" state + (if Nat.even k then 0 else 1))%nat.
Proof.
  intros Hplayed. split; [|by apply played_counts].
  apply played_invariant in Hplayed as [[Hlen _] <-].
  unfold count_nonblank. rewrite <- Hlen. apply length_filter.
Qed.

(** X16: nobody wins before the fifth move: after fewer than five
    validated moves from the blank board the status is not finished. *)
Theorem played_early (k : nat) (state : str) :
  played k state → (k < 5)%nat →
  evaluate_game_status state = NOT_FINISHED.
Proof.
  intros Hplayed Hk.
  destruct (played_counts k state Hplayed) as [Hsum Hdiff].
  apply played_invariant in Hplayed as [[Hlen Hcells] Hnonblank].
  pose proof (count_cells_sum state Hcells) as Hall.
  unfold evaluate_game_status, get_blank_count, lit. simpl list_ascii_of_string.
  assert (∀ c, (count_cells c state < 3)%nat →
               check_win (get_candidate state [c]) = false) as Hno.
  { intros c Hc. apply not_true_is_false.
    intros (w & Hin & Hw)%check_win_true.
    apply subseteq_size in Hw.
    rewrite (winners_size w Hin), get_candidate_size in Hw. lia. }
  rewrite !Hno by (destruct (Nat.even k); lia).
  rewrite !get_candidate_size. simpl.
  rewrite bool_decide_eq_false_2 by (destruct (Nat.even k); lia).
  by rewrite bool_decide_eq_true_2 by lia.
Qed.

(** ** The loop of [main] *)

(** X17: the driver reads the first two tokens of a line and no more:
    a line of fewer than two tokens (an empty line, a single number)
    ends the program on an [IndexError], whatever the board, and
    tokens after the second are ignored. *)
Theorem loop_body_token_count (d : driver) (move : list str) :
  ((length move < 2)%nat → loop_body d move = Raise IndexError) ∧
  (∀ row col rest, move = row :: col :: rest →
                   loop_body d move = loop_body d [row; col]).
Proof.
  split.
  - intros Hlen. unfold loop_body, token.
    destruct move as [|row [|col rest]]; simpl in *; [done..|lia].
  - intros row col rest ->.
    by rewrite !(loop_body_tokens d _ row col).
Qed.

Lemma print_print (d : driver) (lines lines' : list str) :
  print lines' (print lines d) = print (lines ++ lines') d.
Proof. unfold print. simpl. by rewrite app_assoc. Qed.

Lemma print_nil (d : driver) : print [] d = d.
Proof. destruct d. unfold print. simpl. by rewrite app_nil_r. Qed.

Lemma loop_body_refused (d : driver) (move : list str) (e : exn) :
  refused (game_state d) move e →
  loop_body d move = Ok (print [message e] d).
Proof.
  intros (row & col & H0 & H1 & He & Hkind).
  rewrite (loop_body_tokens d move row col H0 H1), He.
  by destruct Hkind as [-> | [-> | ->]].
Qed.

(** X18: lines that are refused do not change the game.  If every line
    of [rejected] is refused on the board of an unfinished game, the
    loop reaches the following input with the same board and status,
    having printed one message for each refused line. *)
Theorem while_loop_refused (d : driver) (rejected inputs : list (list str)) :
  game_status d = NOT_FINISHED →
  Forall (λ move, ∃ e, refused (game_state d) move e) rejected →
  ∃ messages,
    length messages = length rejected ∧
    while_loop (rejected ++ inputs) d = while_loop inputs (print messages d).
Proof.
  intros Hstatus Hall. revert d Hstatus Hall.
  induction rejected as [|move rejected IH]; intros d Hstatus Hall.
  - exists []. by rewrite print_nil.
  - apply Forall_cons in Hall as [[e He] Hall].
    destruct (IH (print [message e] d) Hstatus Hall) as (messages & Hlen & Hloop).
    exists (message e :: messages). split; [simpl; by rewrite Hlen|].
    simpl. rewrite bool_decide_eq_true_2 by done.
    rewrite (loop_body_refused d move e He). simpl.
    rewrite Hloop. by rewrite print_print.
Qed.

(** X19: input after the end of the game is never read: when the loop
    ends on some lines, it ends in the same way on these lines followed
    by any others. *)
Theorem while_loop_extra_input (d d' : driver) (inputs more : list (list str)) :
  while_loop inputs d = Ok d' →
  while_loop (inputs ++ more) d = Ok d'.
Proof.
  revert d. induction inputs as [|move inputs IH]; intros d; simpl.
  - case_bool_decide; [discriminate|]. intros [= <-].
    destruct more; simpl; by rewrite bool_decide_eq_false_2.
  - case_bool_decide; [|done].
    destruct (loop_body d move) as [d1|e]; simpl; [apply IH|done].
Qed.

Lemma validate_move_Raise (state : str) (coords : str * str) (e : exn) :
  validate_move state coords = Raise e → e ≠ EOFError.
Proof.
  destruct coords as [row col]. unfold validate_move.
  destruct (negb (isdigit row) || negb (isdigit col)); [by intros [= <-]|].
  destruct (int row) as [r|e1] eqn:Hr; simpl.
  2: { apply int_Raise in Hr as ->. by intros [= <-]. }
  destruct (int col) as [c|e2] eqn:Hc; simpl.
  2: { apply int_Raise in Hc as ->. by intros [= <-]. }
  case_match; [by intros [= <-]|].
  destruct (getitem state _) as [cell|e3] eqn:Hcell; simpl.
  2: { apply getitem_Raise in Hcell as ->. by intros [= <-]. }
  case_bool_decide; [by intros [= <-]|discriminate].
Qed.

Lemma loop_body_Raise (d : driver) (move : list str) (e : exn) :
  loop_body d move = Raise e → e = IndexError ∨ e = ValueError.
Proof.
  destruct move as [|row [|col rest]];
    [intros [= <-]; by left..|].
  rewrite (loop_body_tokens d (row :: col :: rest) row col eq_refl eq_refl).
  destruct (validate_move (game_state d) (row, col)) as [?|e'] eqn:Hvalid;
    [done|].
  apply validate_move_Raise in Hvalid as Heof.
  destruct e'; try discriminate; try (intros [= <-]; by auto); done.
Qed.

(** X20: the three errors of the program never leave [main]: when
    [main] ends on an exception, it is the end of the input
    ([EOFError]), a line of fewer than two tokens or a state too short
    ([IndexError]), or a token that [int] refuses ([ValueError]). *)
Theorem main_Raise (inputs : list (list str)) (e : exn) :
  main inputs = Raise e →
  e = EOFError ∨ e = IndexError ∨ e = ValueError.
Proof.
  unfold main.
  set (d := Driver _ _ _). clearbody d. intros Hmain.
  assert (while_loop inputs d = Raise e) as Hloop.
  { destruct (while_loop inputs d); [discriminate|done]. }
  clear Hmain. revert d Hloop.
  induction inputs as [|move inputs IH]; intros d; simpl.
  - case_bool_decide; [|discriminate]. intros [= <-]. by left.
  - case_bool_decide; [|discriminate].
    destruct (loop_body d move) as [d1|e1] eqn:Hbody; simpl; [apply IH|].
    intros [= <-]. right. by eapply loop_body_Raise.
Qed.

(** The state of the driver after an accepted move. *)
Lemma loop_body_consistent (d d' : driver) (move : list str) :
  consistent d → game_status d = NOT_FINISHED →
  loop_body d move = Ok d' → consistent d'.
Proof.
  intros (Hboard & Hstatus & Hcount & Himp & HXw & HOw) Hnot.
  destruct move as [|row [|col rest]]; [discriminate..|].
  rewrite (loop_body_tokens d (row :: col :: rest) row col eq_refl eq_refl).
  destruct (validate_move (game_state d) (row, col)) as [checked|e] eqn:Hvalid.
  2: { assert (consistent (print [message e] d)) as Hsame.
       { unfold consistent, print. simpl. repeat split; try done.
         all: by apply Hboard. }
       destruct e; try discriminate; by intros [= <-]. }
  intros [= <-]. unfold consistent. simpl.
  destruct (accepted_move _ _ _ Hboard Hvalid)
    as (i & mark & Hi & _ & Hblank & Hp & Hmark & ->).
  set (state := game_state d) in *.
  (* the player to move, from the two counts *)
  assert (get_player state
          = if decide (count_cells "X" state = count_cells "O" state)
            then ["X"%char] else ["O"%char]) as Hmover.
  { rewrite get_player_count_marks, count_marks_nonblank by apply Hboard.
    rewrite count_nonblank_marks by apply Hboard.
    destruct Hcount as [-> | ->].
    - rewrite decide_True by done.
      replace (count_cells "O" state + count_cells "O" state)%nat
        with (2 * count_cells "O" state)%nat by lia.
      by rewrite Nat.even_mul.
    - rewrite decide_False by lia.
      replace (S (count_cells "O" state) + count_cells "O" state)%nat
        with (S (2 * count_cells "O" state))%nat by lia.
      by rewrite Nat.even_succ, Nat.odd_mul.
  }
  (* nobody holds a line before the move *)
  assert (check_win (get_candidate state ["X"%char]) = false ∧
          check_win (get_candidate state ["O"%char]) = false) as [HnoX HnoO].
  { rewrite Hnot in Hstatus. revert Hstatus.
    unfold evaluate_game_status, lit. simpl list_ascii_of_string.
    case_bool_decide; [discriminate|].
    destruct (check_win (get_candidate state ["X"%char])),
             (check_win (get_candidate state ["O"%char])); simpl;
      by try discriminate. }
  pose proof (count_cells_insert state i " " mark "X" Hblank) as HX.
  pose proof (count_cells_insert state i " " mark "O" Hblank) as HO.
  assert (board (<[i := mark]> state)) as Hboard'.
  { destruct Hboard as [Hlen Hcells]. split; [by rewrite length_insert|].
    apply Forall_insert; [done|]. unfold cell_ok. tauto. }
  split; [done|]. split; [done|].
  unfold evaluate_game_status, lit. simpl list_ascii_of_string.
  rewrite !get_candidate_size.
  rewrite Hp in Hmover.
  destruct (decide (count_cells "X" state = count_cells "O" state))
    as [Heq|Hne]; injection Hmover as ->.
  - (* X moves: the set of O is as before *)
    rewrite (get_candidate_insert_other state i " " "X" "O") by done.
    rewrite HnoO, andb_false_r.
    assert (count_cells "X" (<[i := "X"%char]> state) = S (count_cells "X" state)
            ∧ count_cells "O" (<[i := "X"%char]> state) = count_cells "O" state)
      as [HX' HO'] by (clear -HX HO; repeat case_decide; try done; lia).
    rewrite bool_decide_eq_false_2 by lia.
    repeat split; try lia;
      destruct (check_win (get_candidate (<[i := "X"%char]> state) ["X"%char]));
      try done; case_bool_decide; done.
  - (* O moves: the set of X is as before *)
    rewrite (get_candidate_insert_other state i " " "O" "X") by done.
    rewrite HnoX. simpl.
    assert (count_cells "X" (<[i := "O"%char]> state) = count_cells "X" state
            ∧ count_cells "O" (<[i := "O"%char]> state) = S (count_cells "O" state))
      as [HX' HO'] by (clear -HX HO; repeat case_decide; try done; lia).
    rewrite bool_decide_eq_false_2 by lia.
    repeat split; try lia;
      destruct (check_win (get_candidate (<[i := "O"%char]> state) ["O"%char]));
      try done; case_bool_decide; done.
Qed.

Lemma while_loop_consistent (inputs : list (list str)) (d d' : driver) :
  consistent d → while_loop inputs d = Ok d' →
  consistent d' ∧ game_status d' ≠ NOT_FINISHED.
Proof.
  revert d. induction inputs as [|move inputs IH]; intros d Hd; simpl.
  - case_bool_decide; [discriminate|]. by intros [= <-].
  - case_bool_decide; [|by intros [= <-]].
    destruct (loop_body d move) as [d1|e] eqn:Hbody; simpl; [|discriminate].
    apply IH. by eapply loop_body_consistent.
Qed.

(** X21: how a game ends.  When [main] returns, the status is a win of
    X, a win of O or a draw, never impossible; it is the status of the
    final board, which is nine cells of blanks, X and O, and its text
    is the last line printed.  X wins with one mark more than O, O wins
    with as many marks as X, and a draw is a full board of five X and
    four O. *)
Theorem main_final_status (inputs : list (list str)) (d : driver) :
  main inputs = Ok d →
  let count_x := count_cells "X" (game_state d) in
  let count_o := count_cells "O" (game_state d) in
  board (game_state d) ∧
  game_status d = evaluate_game_status (game_state d) ∧
  last (stdout d) = Some (GameStatus_str (game_status d)) ∧
  (game_status d = X_WIN ∧ count_x = S count_o ∨
   game_status d = O_WIN ∧ count_x = count_o ∨
   game_status d = DRAW ∧ count_x = 5%nat ∧ count_o = 4%nat).
Proof.
  unfold main.
  set (d0 := Driver _ _ _).
  assert (consistent d0) as Hd0.
  { unfold consistent, d0. cbn [game_state game_status].
    split; [split; [reflexivity|repeat constructor; unfold cell_ok; tauto]|].
    split; [by vm_compute|]. split; [by left|]. by repeat split. }
  destruct (while_loop inputs d0) as [d1|e] eqn:Hloop; simpl; [|discriminate].
  intros [= <-]. simpl.
  destruct (while_loop_consistent inputs d0 d1 Hd0 Hloop)
    as [(Hboard & Hstatus & Hcount & Himp & HXw & HOw) Hfin].
  split; [done|]. split; [done|]. split; [apply last_snoc|].
  destruct (game_status d1) eqn:Hg; try done.
  - left. auto.
  - right. left. auto.
  - right. right. split; [done|].
    (* a draw leaves no blank cell *)
    assert (count_cells " " (game_state d1) = 0%nat) as Hblank.
    { symmetry in Hstatus. revert Hstatus.
      unfold evaluate_game_status, get_blank_count, lit.
      simpl list_ascii_of_string. rewrite !get_candidate_size.
      case_bool_decide; [discriminate|].
      destruct (check_win _), (check_win _); simpl; try discriminate.
      case_bool_decide; [discriminate|]. lia. }
    destruct Hboard as [Hlen Hcells].
    pose proof (count_cells_sum _ Hcells) as Hsum. lia.
Qed.

End interpreter.

(** ** Concrete boards and tokens, under the default limit *)

Local Abbreviation validate := (validate_move default_int_max_str_digits).

Lemma validate_move_occupancy_witness :
  validate (lit "XO?      ") (lit "1", lit "3") = Ok (1, 3).
Proof.
  apply (validate_move_occupancy default_int_max_str_digits
           (lit "XO?      ") (lit "1") (lit "3") 1 3 "?");
    try reflexivity; try lia.
  split; discriminate.
Defined.

Lemma validate_move_full_board_witness :
  validate (lit "XOXXOOOXX") (lit "2", lit "3") = Raise OccupiedCellError.
Proof.
  destruct (validate_move_full_board default_int_max_str_digits
              (lit "XOXXOOOXX") (lit "2") (lit "3")) as [H _].
  - reflexivity.
  - intros ch Hch. unfold lit in Hch. simpl in Hch.
    repeat (apply elem_of_cons in Hch as [->|Hch]; [tauto|]).
    by apply elem_of_nil in Hch.
  - apply (H 2 3); try reflexivity; lia.
Defined.

Lemma validate_move_order_witness :
  validate (lit "X O      ") (lit "2", lit "2") = Ok (2, 2).
Proof.
  destruct (validate_move_order default_int_max_str_digits
              (lit "X O      ") (lit "2") (lit "2")) as [_ H].
  - split; [reflexivity|]. repeat constructor; unfold cell_ok; tauto.
  - destruct (H 2 2 eq_refl eq_refl) as (_ & _ & Hok).
    apply Hok. split; [lia|reflexivity].
Defined.

(** The claim C4 fails on a signed token: [-1] parses as an integer,
    and so does [1], yet the pair is refused as non-numeric and not as
    out of range. *)
Lemma validate_move_signed_token :
  ¬ (validate (lit "         ") (lit "-1", lit "1") = Raise NonNumericError ↔
       spec_parse_integer (lit "-1") = None ∨ spec_parse_integer (lit "1") = None).
Proof.
  intros [Hfwd _].
  destruct (Hfwd eq_refl) as [H|H]; vm_compute in H; discriminate.
Qed.

Example signed_token_parses :
  spec_parse_integer (lit "-1") = Some (-1) ∧
  validate (lit "         ") (lit "-1", lit "1") = Raise NonNumericError.
Proof. split; reflexivity. Qed.

Example scenario_5 :
  validate (str_repeat (lit " ") 9) (lit "a", lit "2") = Raise NonNumericError.
Proof. reflexivity. Qed.

Example scenario_6 :
  validate (str_repeat (lit " ") 9) (lit "5", lit "1") = Raise CoordinateError.
Proof. reflexivity. Qed.

Example leading_zeros :
  validate (str_repeat (lit " ") 9) (lit "003", lit "01") = Ok (3, 1).
Proof. reflexivity. Qed.

(** A superscript digit passes [isdigit] and is then refused by [int]:
    the [ValueError] is none of the three classes that the driver
    catches, and [main] ends on it. *)
Example validate_move_superscript :
  validate (lit "         ") ([ascii_of_nat 178], lit "1") = Raise ValueError.
Proof. reflexivity. Qed.

Example main_superscript :
  main default_int_max_str_digits [[[ascii_of_nat 178]; lit "1"]]
  = Raise ValueError.
Proof. reflexivity. Qed.

(** So does a token of more digits than the limit, whatever its
    value. *)
Example validate_move_long_token :
  validate (lit "         ") (replicate 4300 "0"%char ++ lit "1", lit "1")
  = Raise ValueError.
Proof. vm_compute. reflexivity. Qed.

(** A whole game: X takes the top row. *)
Example main_x_wins :
  let moves := [[lit "1"; lit "1"]; [lit "2"; lit "2"]; [lit "1"; lit "2"];
                [lit "one"; lit "3"]; [lit "2"; lit "2"]; [lit "3"; lit "4"];
                [lit "3"; lit "3"]; [lit "1"; lit "3"]] in
  (λ d, (game_state d, game_status d, last (stdout d)))
    <$> match main default_int_max_str_digits moves with
        | Ok d => Some d
        | Raise _ => None
        end
  = Some (lit "XXX O   O", X_WIN, Some (lit "X wins")).
Proof. vm_compute. reflexivity. Qed.

Lemma get_player_alternates_witness :
  get_player (lit "    X    ") = lit "O".
Proof.
  assert (board (lit "    X    ")) as Hboard.
  { split; [reflexivity|]. repeat constructor; unfold cell_ok; tauto. }
  destruct (get_player_alternates default_int_max_str_digits
              (lit "    X    ") Hboard) as [_ H].
  apply (H 1%nat).
  apply (played_move default_int_max_str_digits 0
           (str_repeat (lit " ") 9) (lit "2", lit "2") (2, 2)).
  - apply played_start.
  - reflexivity.
Defined.

Lemma validate_move_leaves_state_witness :
  ∃ d', loop_body default_int_max_str_digits
          (Driver (lit "X        ") NOT_FINISHED []) [lit "1"; lit "1"] = Ok d' ∧
        game_state d' = lit "X        " ∧
        game_status d' = NOT_FINISHED ∧
        get_player (game_state d') = lit "O" ∧
        stdout d' = [lit "This cell is occupied! Choose another one!"].
Proof.
  destruct (validate_move_leaves_state default_int_max_str_digits
              (Driver (lit "X        ") NOT_FINISHED []) [lit "1"; lit "1"]
              (lit "1") (lit "1") eq_refl eq_refl) as [H _].
  destruct (H OccupiedCellError eq_refl)
    as (d' & Hd' & Hst & Hstatus & Hp & Hout & _).
  - right. right. reflexivity.
  - exists d'. rewrite Hp, Hst, Hstatus, Hout. repeat split; done.
Defined.

Lemma validate_move_sound_witness :
  digit_string (lit "02") ∧ 0 ≤ flatten_coordinates (2, 3) ≤ 8.
Proof.
  destruct (validate_move_sound default_int_max_str_digits
              (lit "XO       ") (lit "02") (lit "3") (2, 3) eq_refl)
    as (Hrow & _ & _ & _ & _ & _ & Hidx & _).
  split; [exact Hrow|exact Hidx].
Defined.

Lemma validate_move_IndexError_witness :
  validate (lit "XO") (lit "3", lit "3") = Raise IndexError.
Proof.
  destruct (validate_move_IndexError default_int_max_str_digits
              (lit "XO") (lit "3") (lit "3")) as [_ H].
  apply (H 3 3); try reflexivity; try lia. vm_compute. congruence.
Defined.


Lemma validate_move_leading_zero_witness :
  validate (lit "XO       ") (lit "02", lit "3")
  = validate (lit "XO       ") (lit "2", lit "3").
Proof.
  apply (validate_move_leading_zero default_int_max_str_digits
           (lit "XO       ") (lit "2") (lit "3")); try done.
  all: vm_compute; lia.
Defined.

Lemma played_one :
  played default_int_max_str_digits 1 (lit "    X    ").
Proof.
  apply (played_move default_int_max_str_digits 0
           (str_repeat (lit " ") 9) (lit "2", lit "2") (2, 2)).
  - apply played_start.
  - reflexivity.
Defined.

Lemma accepted_move_board_witness :
  board (lit "XO  X    ") ∧ get_blank_count (lit "XO       ") = 7%nat.
Proof.
  assert (board (lit "XO       ")) as Hboard.
  { split; [reflexivity|]. repeat constructor; unfold cell_ok; tauto. }
  destruct (accepted_move_board default_int_max_str_digits
              (lit "XO       ") (lit "2", lit "2") (2, 2) Hboard eq_refl)
    as (Hb & _ & _ & _ & Hcount).
  split; [exact Hb|exact Hcount].
Defined.

Lemma played_balance_witness :
  (count_cells "X" (lit "    X    ")
   = count_cells "O" (lit "    X    ") + 1)%nat.
Proof.
  destruct (played_balance default_int_max_str_digits 1 (lit "    X    ")
              played_one) as (_ & _ & H).
  exact H.
Defined.

Lemma played_early_witness :
  evaluate_game_status (lit "    X    ") = NOT_FINISHED.
Proof.
  apply (played_early default_int_max_str_digits 1 (lit "    X    ") played_one).
  lia.
Defined.

Lemma loop_body_token_count_witness :
  loop_body default_int_max_str_digits
    (Driver (lit "XO       ") NOT_FINISHED []) [lit "2"] = Raise IndexError.
Proof.
  destruct (loop_body_token_count default_int_max_str_digits
              (Driver (lit "XO       ") NOT_FINISHED []) [lit "2"]) as [H _].
  apply H. simpl. lia.
Defined.

Lemma while_loop_refused_witness :
  ∃ messages,
    length messages = 2%nat ∧
    while_loop default_int_max_str_digits
      ([[lit "a"; lit "1"]; [lit "1"; lit "1"]] ++ [[lit "2"; lit "2"]])
      (Driver (lit "X        ") NOT_FINISHED [])
    = while_loop default_int_max_str_digits [[lit "2"; lit "2"]]
        (print messages (Driver (lit "X        ") NOT_FINISHED [])).
Proof.
  apply (while_loop_refused default_int_max_str_digits
           (Driver (lit "X        ") NOT_FINISHED [])
           [[lit "a"; lit "1"]; [lit "1"; lit "1"]] [[lit "2"; lit "2"]]).
  - reflexivity.
  - repeat constructor.
    + exists NonNumericError, (lit "a"), (lit "1"). repeat split; auto.
    + exists OccupiedCellError, (lit "1"), (lit "1"). repeat split; auto.
Defined.

Lemma top_row_game_ends :
  ∃ d, main default_int_max_str_digits top_row_game = Ok d.
Proof. eexists. vm_compute. reflexivity. Defined.

Lemma while_loop_extra_input_witness :
  ∃ d, while_loop default_int_max_str_digits
         (top_row_game ++ [[lit "3"; lit "1"]])
         (Driver (str_repeat (lit " ") 9) NOT_FINISHED []) = Ok d ∧
       game_state d = lit "XXX O   O".
Proof.
  eexists. split.
  - apply (while_loop_extra_input default_int_max_str_digits).
    vm_compute. reflexivity.
  - reflexivity.
Defined.

Lemma main_Raise_witness :
  ∃ e, main default_int_max_str_digits [[lit "1"; lit "1"]; [lit "2"]] = Raise e ∧
       (e = EOFError ∨ e = IndexError ∨ e = ValueError).
Proof.
  exists IndexError. split; [reflexivity|].
  apply (main_Raise default_int_max_str_digits [[lit "1"; lit "1"]; [lit "2"]]).
  reflexivity.
Defined.

Lemma main_final_status_witness :
  ∃ d, main default_int_max_str_digits top_row_game = Ok d ∧
       game_status d = evaluate_game_status (game_state d) ∧
       last (stdout d) = Some (GameStatus_str (game_status d)).
Proof.
  destruct top_row_game_ends as [d Hd]. exists d. split; [exact Hd|].
  destruct (main_final_status default_int_max_str_digits top_row_game d Hd)
    as (_ & Hstatus & Hlast & _).
  split; [exact Hstatus|exact Hlast].
Defined.
